(** * kati: the ninja generator (src/ninja.cc)

    A shallow embedding of the build-plan emitter of kati: command
    translation, description and depfile heuristics, name escaping, the
    traversal of the dependency graph, the emission of build stanzas and
    the writing of the regeneration stamp. *)

From Stdlib Require Import Ascii String ZArith List Lia Bool DecimalString.
From stdpp Require Import base option list gmap strings.

Local Open Scope nat_scope.
Set Warnings "-register-all".

(** ** Characters and text *)

(** A [std::string], a [StringPiece] and a [const char*] are all modelled by
    the list of their bytes; a [const char*] by the bytes before its
    terminator. *)
Abbreviation text := (list ascii).

Definition str (s : string) : text := list_ascii_of_string s.

Definition ch_nul : ascii := "000"%char.
Definition ch_tab : ascii := "009"%char.
Definition ch_nl : ascii := "010"%char.
Definition ch_cr : ascii := "013"%char.
Definition ch_space : ascii := " "%char.
Definition ch_dquote : ascii := "034"%char.
Definition ch_squote : ascii := "'"%char.
Definition ch_bquote : ascii := "`"%char.
Definition ch_bslash : ascii := "\"%char.
Definition ch_hash : ascii := "#"%char.
Definition ch_dollar : ascii := "$"%char.
Definition ch_colon : ascii := ":"%char.
Definition ch_semi : ascii := ";"%char.
Definition ch_slash : ascii := "/"%char.
Definition ch_dot : ascii := "."%char.

(** [isspace] of the C locale: space, \t, \n, \v, \f, \r. *)
Definition isspace (c : ascii) : bool :=
  let n := nat_of_ascii c in (n =? 32) || ((9 <=? n) && (n <=? 13)).

(** ** Failures

    The code has no error values: it either goes on or the process ends.
    [CheckFailed] is a failed [CHECK], [LengthError] the exception of
    [std::string::resize] beyond [max_size] (reached through
    [resize(size() - 1)] on an empty string, where [size() - 1] wraps
    around), [OutOfRange] an access outside a string. *)
Inductive failure : Set := CheckFailed | LengthError | OutOfRange.

Inductive outcome (A : Type) : Type :=
  | Ok (a : A)
  | Abort (f : failure).
Arguments Ok {A} a.
Arguments Abort {A} f.

#[global] Instance outcome_ret : MRet outcome := fun A a => Ok a.
#[global] Instance outcome_bind : MBind outcome := fun A B k m =>
  match m with Ok a => k a | Abort f => Abort f end.

Definition is_ok {A} (m : outcome A) : bool :=
  match m with Ok _ => true | Abort _ => false end.

(** ** The operations of [std::string] and [StringPiece] that the code uses *)

(** [compare(pos, n, needle) == 0] at the head of [hay]. *)
Fixpoint starts_with (needle hay : text) : bool :=
  match needle, hay with
  | [], _ => true
  | _ :: _, [] => false
  | a :: n', b :: h' => Ascii.eqb a b && starts_with n' h'
  end.

(** [hay.find(needle)]; [None] is [npos]. *)
Fixpoint find (needle hay : text) : option nat :=
  if starts_with needle hay then Some 0
  else match hay with
       | [] => None
       | _ :: h' => S <$> find needle h'
       end.

(** [hay.find_first_of(set)]. *)
Fixpoint find_first_of (set hay : text) : option nat :=
  match hay with
  | [] => None
  | c :: h' => if existsb (Ascii.eqb c) set then Some 0
               else S <$> find_first_of set h'
  end.

Fixpoint rfind_from (needle hay : text) (pos : nat) : option nat :=
  match pos with
  | 0 => if starts_with needle hay then Some 0 else None
  | S p => if starts_with needle (drop pos hay) then Some pos
           else rfind_from needle hay p
  end.

(** [hay.rfind(needle, pos)]: the last occurrence that starts at or before
    [pos]. *)
Definition rfind (needle : text) (pos : nat) (hay : text) : option nat :=
  if length needle <=? length hay
  then rfind_from needle hay (Nat.min (length hay - length needle) pos)
  else None.

(** [hay.rfind(c)], with the default position [npos]. *)
Definition rfind_char (c : ascii) (hay : text) : option nat :=
  rfind [c] (length hay) hay.

(** [s.substr(pos)] and [s.substr(pos, n)]; every use in the code has
    [pos <= size()], or is on a [StringPiece], whose [substr] clamps. *)
Definition substr (pos : nat) (s : text) : text := drop pos s.
Definition substr_n (pos n : nat) (s : text) : text := take n (drop pos s).

(** [s.resize(n)]: truncation, or padding with NUL. *)
Definition resize (n : nat) (s : text) : text :=
  take n s ++ replicate (n - length s) ch_nul.

(** [s.resize(s.size() - 1)]. *)
Definition resize_minus_one (s : text) : outcome text :=
  match s with
  | [] => Abort LengthError
  | _ => Ok (removelast s)
  end.

(** [s.insert(pos, t)], which throws when [pos > size()]. *)
Definition insert_at (pos : nat) (t s : text) : outcome text :=
  if pos <=? length s then Ok (take pos s ++ t ++ drop pos s)
  else Abort OutOfRange.

(** [StringPiece::get(i)] gives NUL outside the piece. *)
Definition sp_get (i : Z) (s : text) : ascii :=
  if (0 <=? i)%Z then nth (Z.to_nat i) s ch_nul else ch_nul.

(** [c_str()]: the bytes up to the first NUL. *)
Fixpoint c_str (s : text) : text :=
  match s with
  | [] => []
  | c :: s' => if Ascii.eqb c ch_nul then [] else c :: c_str s'
  end.

(** ** strutil helpers *)

(** Modelled from the spec: [HasPrefix] of strutil is not among the source
    files; the spec speaks of a buffer or fragment that begins with a given
    text. *)
Definition HasPrefix (s prefix : text) : bool := starts_with prefix s.

(** Modelled from the spec: [HasSuffix] of strutil is not among the source
    files; the spec speaks of a name ending in a given text. *)
Definition HasSuffix (s suffix : text) : bool :=
  starts_with (rev suffix) (rev s).

(** Modelled from the spec: [TrimLeftSpace] of strutil is not among the
    source files; it drops the white space in front of a flag's argument. *)
Fixpoint TrimLeftSpace (s : text) : text :=
  match s with
  | [] => []
  | c :: s' => if isspace c then TrimLeftSpace s' else s
  end.

(** Modelled from the spec: [StripExt] of strutil is not among the source
    files; the spec derives the depfile from a path by replacing its
    extension, the part from the last dot of its last component on. *)
Definition StripExt (s : text) : text :=
  match rfind_char ch_dot s with
  | None => s
  | Some found =>
      match rfind_char ch_slash s with
      | Some slash_index => if found <? slash_index then s else take found s
      | None => take found s
      end
  end.

(** Modelled from the spec: [Basename] of strutil is not among the source
    files; the last component of a path. *)
Definition Basename (s : text) : text :=
  match rfind_char ch_slash s with
  | None => s
  | Some 0 => s
  | Some found => drop (S found) s
  end.

(** Modelled from the spec: [Dirname] of strutil is not among the source
    files; the spec calls it the directory component of the target's output
    name. *)
Definition Dirname (s : text) : text :=
  match rfind_char ch_slash s with
  | None => str "."
  | Some 0 => []
  | Some found => take found s
  end.

(** ** TranslateCommand (ninja.cc, lines 265-341) *)

(** The locals of the scanning loop and the buffer it appends to. *)
Record scan_state : Type := ScanState {
  sc_buf : text;
  sc_prev_backslash : bool;
  sc_prev_char : ascii;
  sc_quote : ascii
}.

Definition set_buf (b : text) (st : scan_state) : scan_state :=
  ScanState b (sc_prev_backslash st) (sc_prev_char st) (sc_quote st).

Definition is_quote_char (c : ascii) : bool :=
  Ascii.eqb c ch_squote || Ascii.eqb c ch_dquote || Ascii.eqb c ch_bquote.

(** The test of [case '#'] that starts a comment. *)
Definition comment_start (c : ascii) (st : scan_state) : bool :=
  Ascii.eqb c ch_hash && Ascii.eqb (sc_quote st) ch_nul
  && isspace (sc_prev_char st).

(** The [switch] on a character that does not start a comment. *)
Definition switch_char (c : ascii) (st : scan_state) : outcome scan_state :=
  if Ascii.eqb c ch_hash then Ok (set_buf (sc_buf st ++ [c]) st)
  else if is_quote_char c then
    let q :=
      if negb (Ascii.eqb (sc_quote st) ch_nul)
      then (if Ascii.eqb (sc_quote st) c then ch_nul else sc_quote st)
      else if negb (sc_prev_backslash st) then c else sc_quote st in
    Ok (ScanState (sc_buf st ++ [c]) (sc_prev_backslash st)
                  (sc_prev_char st) q)
  else if Ascii.eqb c ch_dollar then
    Ok (set_buf (sc_buf st ++ str "$$") st)
  else if Ascii.eqb c ch_nl then
    if sc_prev_backslash st
    then b ← resize_minus_one (sc_buf st); Ok (set_buf b st)
    else Ok (set_buf (sc_buf st ++ [ch_space]) st)
  else Ok (set_buf (sc_buf st ++ [c]) st).

(** The end of the loop body: lines 319-325. *)
Definition after_char (c : ascii) (st : scan_state) : scan_state :=
  ScanState (sc_buf st)
            (if Ascii.eqb c ch_bslash then negb (sc_prev_backslash st)
             else false)
            c (sc_quote st).

(** The [for] loop over the input.  [skipping] says that the inner [while]
    of [case '#'] is running with [in] at the head of the input: it goes on
    while [in[1]] is not the terminator and [*in] is not a newline, and the
    character it stops at is the [*in] of lines 319-325. *)
Fixpoint scan (skipping : bool) (input : text) (st : scan_state)
  : outcome scan_state :=
  match input with
  | [] => Ok st
  | c :: rest =>
      if skipping || comment_start c st then
        match rest with
        | _ :: _ =>
            if Ascii.eqb c ch_nl then scan false rest (after_char c st)
            else scan true rest st
        | [] => scan false rest (after_char c st)
        end
      else
        st' ← switch_char c st; scan false rest (after_char c st')
  end.

(** The loop of lines 332-337, over the reversed buffer: it reads the last
    character, which does not exist when the buffer is empty. *)
Fixpoint strip_tail_rev (r : text) : outcome text :=
  match r with
  | [] => Abort OutOfRange
  | c :: r' =>
      if negb (isspace c) && negb (Ascii.eqb c ch_semi) then Ok r
      else strip_tail_rev r'
  end.

Definition strip_tail (buf : text) : outcome text :=
  r ← strip_tail_rev (rev buf); Ok (rev r).

(** Lines 266-269. *)
Definition make_to_ninja (cmd_buf : text) : text :=
  if decide (rfind (str "make ") 0 cmd_buf = Some 0)
  then str "ninja " ++ substr 5 cmd_buf
  else cmd_buf.

Definition scan_init (cmd_buf : text) : scan_state :=
  ScanState cmd_buf false ch_space ch_nul.

(** The result is the new buffer and the returned piece, which starts at
    [orig_size]; a buffer that ends up shorter than [orig_size] gives a piece
    whose length wraps around and that lies outside the buffer. *)
Definition TranslateCommand (input : text) (cmd_buf : text)
  : outcome (text * text) :=
  let cmd_buf := make_to_ninja cmd_buf in
  let orig_size := length cmd_buf in
  st ← scan false input (scan_init cmd_buf);
  buf ← (if sc_prev_backslash st then resize_minus_one (sc_buf st)
         else Ok (sc_buf st));
  buf ← strip_tail buf;
  if orig_size <=? length buf then Ok (buf, drop orig_size buf)
  else Abort OutOfRange.

(** ** Flags, commands and nodes *)

(** The fields of [g_flags] that the generator reads; a [const char*] flag
    that may be null is an [option]. *)
Record Flags : Type := {
  detect_android_echo : bool;
  detect_depfiles : bool;
  enable_debug : bool;
  gen_all_targets : bool;
  generate_empty_ninja : bool;
  no_ninja_prelude : bool;
  use_ninja_phony_output : bool;
  goma_dir : option text;
  default_pool : option text;
  ninja_dir : option text;
  ninja_suffix : option text;
  num_jobs : Z;
  remote_num_jobs : Z;
  targets : list text
}.

(** [Command] of command.h, as far as the generator reads it. *)
Record Command : Type := {
  cmd : text;
  echo : bool;
  ignore_error : bool
}.

(** [DepNode] of dep.h, as far as the generator reads it.  A variable of
    the node ([depfile_var], [ninja_pool_var]) is given by the text its
    [Eval] appends, and [eval_commands] is what [ce_.Eval] yields for the
    node. *)
Inductive DepNode : Type := mkDepNode {
  output : text;
  has_rule : bool;
  is_phony : bool;
  is_default_target : bool;
  is_restat : bool;
  eval_commands : list Command;
  deps : list (text * DepNode);
  order_onlys : list (text * DepNode);
  validations : list (text * DepNode);
  implicit_outputs : list text;
  symlink_outputs : list text;
  depfile_var : option text;
  ninja_pool_var : option text;
  loc_filename : option text;
  loc_lineno : Z
}.

Record NinjaNode : Type := {
  nn_node : DepNode;
  nn_commands : list Command;
  nn_rule_id : Z
}.

(** An [int] that is incremented wraps around at 32 bits. *)
Definition wrap_int (z : Z) : Z :=
  ((z + 2 ^ 31) mod 2 ^ 32 - 2 ^ 31)%Z.

(** ** The remote-execution wrapper (lines 74-102) *)

(** [StripPrefix(p, &s)]: the new [s] when the prefix was there. *)
Definition StripPrefix (p s : text) : option text :=
  if HasPrefix s p then Some (substr (length p) s) else None.

(** Each recursive call is on a strictly shorter command line; [fuel] bounds
    their number. *)
Fixpoint gomacc_pos (fuel : nat) (cmdline : text) : option nat :=
  match fuel with
  | 0 => None
  | S fuel' =>
      match find [ch_space] cmdline with
      | None => None
      | Some index =>
          let c := substr_n 0 index cmdline in
          if HasSuffix c (str "ccache") then
            match gomacc_pos fuel' (substr (S index) cmdline) with
            | None => None
            | Some pos => Some (pos + S index)
            end
          else
            match StripPrefix (str "prebuilts/") c with
            | None => None
            | Some c1 =>
                let stripped :=
                  match StripPrefix (str "gcc/") c1 with
                  | Some c2 => Some c2
                  | None => StripPrefix (str "clang/") c1
                  end in
                match stripped with
                | None => None
                | Some c2 =>
                    if negb (HasSuffix c2 (str "gcc"))
                       && negb (HasSuffix c2 (str "g++"))
                       && negb (HasSuffix c2 (str "clang"))
                       && negb (HasSuffix c2 (str "clang++"))
                    then None
                    else if find (str " -c ") (substr index cmdline) is Some _
                    then Some 0 else None
                end
            end
      end
  end.

Definition GetGomaccPosForAndroidCompileCommand (cmdline : text)
  : option nat :=
  gomacc_pos (S (length cmdline)) cmdline.

(** ** Depfile detection (lines 50-72 and 104-170) *)

Definition FindCommandLineFlag (c name : text) : option nat :=
  match find name c with
  | None => None
  | Some 0 => None
  | Some found => Some found
  end.

(** The [while] of [FindCommandLineFlagWithArg]: each round drops at least
    the flag, so [fuel] bounds the rounds. *)
Fixpoint last_flag_arg (fuel : nat) (name val : text) : text :=
  match fuel with
  | 0 => val
  | S fuel' =>
      match find name val with
      | None => val
      | Some index =>
          last_flag_arg fuel' name
            (TrimLeftSpace (substr (index + length name) val))
      end
  end.

Definition FindCommandLineFlagWithArg (c name : text) : text :=
  match FindCommandLineFlag c name with
  | None => []
  | Some index =>
      let val := TrimLeftSpace (substr (index + length name) c) in
      let val := last_flag_arg (S (length val)) name val in
      match find_first_of [ch_space; ch_tab] val with
      | None => val
      | Some index => substr_n 0 index val
      end
  end.

(** Modelled from the spec: the macro [ERROR] of log.h is not among the
    source files; by the spec a failed detection is reported and
    translation goes on, so the report leaves no trace here. *)
Definition GetDepfileFromCommandImpl (c out : text) : bool * text :=
  if (negb (bool_decide (is_Some (FindCommandLineFlag c (str " -MD"))))
      && negb (bool_decide (is_Some (FindCommandLineFlag c (str " -MMD")))))
     || negb (bool_decide (is_Some (FindCommandLineFlag c (str " -c"))))
  then (false, out)
  else
    match FindCommandLineFlagWithArg c (str " -MF") with
    | (_ :: _) as mf => (true, out ++ mf)
    | [] =>
        match FindCommandLineFlagWithArg c (str " -o") with
        | [] => (false, out)
        | (_ :: _) as o => (true, out ++ StripExt o ++ str ".d")
        end
    end.

(** [cmd->erase(found, n)]. *)
Definition erase (found n : nat) (s : text) : text :=
  take found s ++ drop (found + n) s.

(** The result is the returned flag, the new [*cmd] and the new [*out]. *)
Definition GetDepfileFromCommand (c out : text)
  : outcome (bool * text * text) :=
  match c with
  | [] => Abort CheckFailed
  | _ :: _ =>
      let '(found_dep, out) := GetDepfileFromCommandImpl c out in
      if negb found_dep then Ok (false, c, out)
      else if find (str "bin/llvm-rs-cc ") c is Some _ then Ok (false, c, out)
      else
        let p := StripExt out ++ str ".P" in
        if find p c is Some _ then
          let rm_f := str "; rm -f " ++ out in
          match find rm_f c with
          | None => Abort OutOfRange
          | Some found => Ok (true, erase found (length rm_f) c, out)
          end
        else
          let as_ := str "/" ++ StripExt (Basename out) ++ str ".s" in
          if find as_ c is Some _ then Ok (false, c, out)
          else Ok (true,
                   c ++ str "&& cp " ++ out ++ [ch_space] ++ out
                     ++ str ".tmp ",
                   out ++ str ".tmp")
  end.

(** [GetDepfile] (lines 466-478): the flag, the new [*cmd_buf] and the new
    [*depfile]. *)
Definition GetDepfile (fl : Flags) (node : DepNode) (cmd_buf depfile : text)
  : outcome (bool * text * text) :=
  match depfile_var node with
  | Some v => Ok (true, cmd_buf, depfile ++ v)
  | None =>
      if negb (detect_depfiles fl) then Ok (false, cmd_buf, depfile)
      else
        '(result, cmd_buf, depfile) ←
          GetDepfileFromCommand (cmd_buf ++ [ch_space]) depfile;
        cmd_buf ← resize_minus_one cmd_buf;
        Ok (result, cmd_buf, depfile)
  end.

(** ** The generator object *)

(** The members of [NinjaGenerator].  [start_time_] is kept as the bytes of
    the [double], [used_envs_] as the entries of the [map] in key order. *)
Record Generator : Type := {
  done_ : gset text;
  rule_id_ : Z;
  use_goma_ : bool;
  gomacc_ : text;
  shell_ : text;
  shell_flags_ : text;
  used_envs_ : list (text * text);
  kati_binary_ : text;
  start_time_ : text;
  nodes_ : list NinjaNode;
  default_target_ : option DepNode
}.

Definition set_done (d : gset text) (g : Generator) : Generator :=
  {| done_ := d; rule_id_ := rule_id_ g; use_goma_ := use_goma_ g;
     gomacc_ := gomacc_ g; shell_ := shell_ g; shell_flags_ := shell_flags_ g;
     used_envs_ := used_envs_ g; kati_binary_ := kati_binary_ g;
     start_time_ := start_time_ g; nodes_ := nodes_ g;
     default_target_ := default_target_ g |}.

Definition set_rule_id (r : Z) (g : Generator) : Generator :=
  {| done_ := done_ g; rule_id_ := r; use_goma_ := use_goma_ g;
     gomacc_ := gomacc_ g; shell_ := shell_ g; shell_flags_ := shell_flags_ g;
     used_envs_ := used_envs_ g; kati_binary_ := kati_binary_ g;
     start_time_ := start_time_ g; nodes_ := nodes_ g;
     default_target_ := default_target_ g |}.

Definition set_nodes (n : list NinjaNode) (g : Generator) : Generator :=
  {| done_ := done_ g; rule_id_ := rule_id_ g; use_goma_ := use_goma_ g;
     gomacc_ := gomacc_ g; shell_ := shell_ g; shell_flags_ := shell_flags_ g;
     used_envs_ := used_envs_ g; kati_binary_ := kati_binary_ g;
     start_time_ := start_time_ g; nodes_ := n;
     default_target_ := default_target_ g |}.

Definition set_default_target (d : option DepNode) (g : Generator)
  : Generator :=
  {| done_ := done_ g; rule_id_ := rule_id_ g; use_goma_ := use_goma_ g;
     gomacc_ := gomacc_ g; shell_ := shell_ g; shell_flags_ := shell_flags_ g;
     used_envs_ := used_envs_ g; kati_binary_ := kati_binary_ g;
     start_time_ := start_time_ g; nodes_ := nodes_ g;
     default_target_ := d |}.

Definition set_used_envs (e : list (text * text)) (g : Generator)
  : Generator :=
  {| done_ := done_ g; rule_id_ := rule_id_ g; use_goma_ := use_goma_ g;
     gomacc_ := gomacc_ g; shell_ := shell_ g; shell_flags_ := shell_flags_ g;
     used_envs_ := e; kati_binary_ := kati_binary_ g;
     start_time_ := start_time_ g; nodes_ := nodes_ g;
     default_target_ := default_target_ g |}.

(** ** EscapeNinja (lines 532-550) *)

Definition needs_escape (c : ascii) : bool :=
  Ascii.eqb c ch_dollar || Ascii.eqb c ch_colon || Ascii.eqb c ch_space.

(** One round of the [for] loop: [r += '$'] falls through to [r += c]. *)
Definition escape_step (r : text) (c : ascii) : text :=
  if needs_escape c then (r ++ [ch_dollar]) ++ [c] else r ++ [c].

Definition EscapeNinja (s : text) : text :=
  match find_first_of (str "$: ") s with
  | None => s
  | Some _ => fold_left escape_step s []
  end.

Definition EscapeBuildTarget (s : text) : text := EscapeNinja s.

(** ** PopulateNinjaNode (lines 223-263) *)

Fixpoint PopulateNinjaNode (fl : Flags) (node : DepNode) (g : Generator)
  : Generator :=
  if bool_decide (output node ∈ done_ g) then g
  else
    let g := set_done ({[ output node ]} ∪ done_ g) g in
    if detect_android_echo fl && bool_decide (output node = str "out") then g
    else if negb (has_rule node) && negb (is_phony node) then g
    else
      let commands := eval_commands node in
      let rule_id := match commands with [] => (-1)%Z | _ => rule_id_ g end in
      let g := match commands with
               | [] => g
               | _ => set_rule_id (wrap_int (rule_id_ g + 1)) g
               end in
      let nn := {| nn_node := node; nn_commands := commands;
                   nn_rule_id := rule_id |} in
      let g := set_nodes (nodes_ g ++ [nn]) g in
      let g := fold_left (fun g d => PopulateNinjaNode fl (snd d) g)
                         (deps node) g in
      let g := fold_left (fun g d => PopulateNinjaNode fl (snd d) g)
                         (order_onlys node) g in
      fold_left (fun g d => PopulateNinjaNode fl (snd d) g)
                (validations node) g.

Definition PopulateNinjaNodes (fl : Flags) (nodes : list (text * DepNode))
  (g : Generator) : Generator :=
  fold_left (fun g node => PopulateNinjaNode fl (snd node) g) nodes g.

(** ** The heuristics on one translated fragment (lines 343-406) *)

Definition IsOutputMkdir (name c : text) : bool :=
  if negb (HasPrefix c (str "mkdir -p ")) then false
  else
    let c := substr_n 9 (length c) c in
    let c := if Ascii.eqb (sp_get (Z.of_nat (length c) - 1) c) ch_slash
             then substr_n 0 (length c - 1) c else c in
    bool_decide (c = Dirname name).

Definition is_shell_meta (c : ascii) : bool :=
  Ascii.eqb c "<"%char || Ascii.eqb c ">"%char || Ascii.eqb c "&"%char
  || Ascii.eqb c "|"%char || Ascii.eqb c ch_semi.

(** The loop of [GetDescriptionFromCommand]; [None] is [return false]. *)
Fixpoint description_scan (input : text) (prev_backslash : bool)
  (quote : ascii) (out_buf : text) : option text :=
  match input with
  | [] => Some out_buf
  | c :: rest =>
      if prev_backslash then description_scan rest false quote (out_buf ++ [c])
      else if Ascii.eqb c ch_bslash
      then description_scan rest true quote (out_buf ++ [c])
      else if negb (Ascii.eqb quote ch_nul) then
        if Ascii.eqb c quote then description_scan rest false ch_nul out_buf
        else description_scan rest false quote (out_buf ++ [c])
      else if is_quote_char c then description_scan rest false c out_buf
      else if is_shell_meta c then None
      else description_scan rest false quote (out_buf ++ [c])
  end.

(** [Some d]: the function returns true and stores [d] in [*out]. *)
Definition GetDescriptionFromCommand (c : text) : option text :=
  if negb (HasPrefix c (str "echo ")) then None
  else description_scan (substr_n 5 (length c) c) false ch_nul [].

(** ** GenShellScript (lines 408-464) *)

Record shell_state : Type := ShellState {
  sh_cmd_buf : text;
  sh_description : text;
  sh_got_description : bool;
  sh_use_gomacc : bool;
  sh_command_count : nat
}.

(** [while (isspace( *in)) in++]. *)
Fixpoint skip_spaces (input : text) : text :=
  match input with
  | [] => []
  | c :: rest => if isspace c then skip_spaces rest else input
  end.

(** One round of the loop over the commands. *)
Definition GenShellScript_command (fl : Flags) (g : Generator) (name : text)
  (c : Command) (s : shell_state) : outcome shell_state :=
  let cmd_begin := length (sh_cmd_buf s) in
  let buf := match sh_cmd_buf s with
             | [] => []
             | _ => sh_cmd_buf s ++ str " && "
             end in
  let input := skip_spaces (c_str (cmd c)) in
  let needs_subshell := (1 <? sh_command_count s) || ignore_error c in
  let buf := if needs_subshell then buf ++ str "(" else buf in
  let cmd_start := length buf in
  '(buf, translated) ← TranslateCommand input buf;
  let described :=
    if detect_android_echo fl && negb (sh_got_description s) && negb (echo c)
    then GetDescriptionFromCommand translated else None in
  let '(translated, description, got) :=
    match described with
    | Some d => ([], d, true)
    | None =>
        if IsOutputMkdir name translated && negb (echo c) && (cmd_begin =? 0)
        then ([], sh_description s, sh_got_description s)
        else (translated, sh_description s, sh_got_description s)
    end in
  match translated with
  | [] =>
      Ok (ShellState (resize cmd_begin buf) description got
                     (sh_use_gomacc s) (sh_command_count s - 1))
  | _ :: _ =>
      '(buf, use_gomacc) ←
        match goma_dir fl with
        | Some _ =>
            match GetGomaccPosForAndroidCompileCommand translated with
            | Some pos =>
                buf ← insert_at (cmd_start + pos) (gomacc_ g) buf;
                Ok (buf, true)
            | None => Ok (buf, sh_use_gomacc s)
            end
        | None =>
            if find (str "/gomacc") translated is Some _ then Ok (buf, true)
            else Ok (buf, sh_use_gomacc s)
        end;
      let buf := if ignore_error c then buf ++ str " ; true" else buf in
      let buf := if needs_subshell then buf ++ str " )" else buf in
      Ok (ShellState buf description got use_gomacc (sh_command_count s))
  end.

Fixpoint GenShellScript_loop (fl : Flags) (g : Generator) (name : text)
  (commands : list Command) (s : shell_state) : outcome shell_state :=
  match commands with
  | [] => Ok s
  | c :: rest =>
      s' ← GenShellScript_command fl g name c s;
      GenShellScript_loop fl g name rest s'
  end.

Definition remote_enabled (fl : Flags) (g : Generator) : bool :=
  use_goma_ g || negb (remote_num_jobs fl =? 0)%Z
  || bool_decide (is_Some (goma_dir fl)).

(** The result is the returned flag, the new [*cmd_buf] and the new
    [*description]. *)
Definition GenShellScript (fl : Flags) (g : Generator) (name : text)
  (commands : list Command) (cmd_buf description : text)
  : outcome (bool * text * text) :=
  s ← GenShellScript_loop fl g name commands
        (ShellState cmd_buf description false false (length commands));
  Ok (remote_enabled fl g && negb (sh_use_gomacc s),
      sh_cmd_buf s, sh_description s).

(** ** What the generator takes from the rest of kati *)

(** A recorded [find] of find.h, as far as the stamp reads it. *)
Record FindCommand : Type := {
  finddirs : list text;
  chdir : text;
  found_files : list text;
  read_dirs : list text
}.

(** [CommandResult]: [cr_op] is the [int] value of the operation and
    [cr_find] is present exactly when the operation is [CommandOp::FIND]. *)
Record CommandResult : Type := {
  cr_op : Z;
  cr_shell : text;
  cr_shellflag : text;
  cr_cmd : text;
  cr_result : text;
  cr_loc_filename : text;
  cr_loc_lineno : Z;
  cr_find : option FindCommand
}.

(** Functions, constants and process-wide tables of kati that the generator
    uses and that are defined outside the two source files; they stay
    parameters of the embedding. *)
Record Externals : Type := {
  kGitVersion : text;
  IsSpecialTarget : text -> bool;
  EscapeShell : text -> text;
  used_env_vars : list text;
  getenv : text -> option text;
  exports : list (text * bool);
  EvalVar : text -> text;
  DumpInt : Z -> text;
  DumpString : text -> text;
  Exists : text -> bool;
  ConcatDir : text -> text -> text;
  makefile_names : list text;
  used_undefined_vars : list text;
  glob_cache : list (text * list text);
  shell_command_results : list CommandResult;
  GetShell : text;
  GetShellFlag : text;
  executable_path : text
}.

(** [out << v] for an [int]. *)
Definition int_text (z : Z) : text := str (NilZero.string_of_int (Z.to_int z)).

(** ** EmitBuild (lines 552-617) *)

(** [out << " " << EscapeBuildTarget(s)] for each name. *)
Definition emit_targets (names : list text) : text :=
  flat_map (fun s => ch_space :: EscapeBuildTarget s) names.

(** The same through [c_str()], as for the three kinds of edges. *)
Definition emit_edges (edges : list (text * DepNode)) : text :=
  flat_map (fun d => ch_space :: c_str (EscapeBuildTarget (fst d))) edges.

(** Lines 556-586: the [build] line. *)
Definition EmitBuild_line (fl : Flags) (node : DepNode) (rule_name : text)
  : text :=
  str "build " ++ EscapeBuildTarget (output node)
  ++ match implicit_outputs node with
     | [] => []
     | outs => str " |" ++ emit_targets outs
     end
  ++ str ": " ++ rule_name
  ++ (if is_phony node && negb (use_ninja_phony_output fl)
      then str " _kati_always_build_" else [])
  ++ emit_edges (deps node)
  ++ match order_onlys node with
     | [] => []
     | es => str " ||" ++ emit_edges es
     end
  ++ match validations node with
     | [] => []
     | es => str " |@" ++ emit_edges es
     end
  ++ [ch_nl].

(** Lines 588-594. *)
Definition EmitBuild_symlinks (node : DepNode) : text :=
  match symlink_outputs node with
  | [] => []
  | outs => str " symlink_outputs =" ++ emit_targets outs ++ [ch_nl]
  end.

(** Lines 596-609: the choice of the pool. *)
Definition EmitBuild_pool (fl : Flags) (node : DepNode) (rule_name : text)
  (use_local_pool : bool) : text :=
  let pool := match ninja_pool_var node with Some v => v | None => [] end in
  if negb (bool_decide (pool = [])) then
    if negb (bool_decide (pool = str "none"))
    then str " pool = " ++ pool ++ [ch_nl] else []
  else
    match default_pool fl with
    | Some p =>
        if negb (bool_decide (rule_name = str "phony"))
        then str " pool = " ++ p ++ [ch_nl]
        else if use_local_pool then str " pool = local_pool" ++ [ch_nl]
        else []
    | None =>
        if use_local_pool then str " pool = local_pool" ++ [ch_nl] else []
    end.

Definition EmitBuild (fl : Flags) (nn : NinjaNode) (rule_name : text)
  (use_local_pool : bool) (out : text) (g : Generator) : text * Generator :=
  let node := nn_node nn in
  let out := out ++ EmitBuild_line fl node rule_name
             ++ EmitBuild_symlinks node
             ++ EmitBuild_pool fl node rule_name use_local_pool
             ++ (if is_phony node && use_ninja_phony_output fl
                 then str " phony_output = true" ++ [ch_nl] else []) in
  (out, if is_default_target node then set_default_target (Some node) g
        else g).

(** ** EmitNode (lines 480-530)

    The emitting functions give the text sent to [out] so far together with
    their outcome, so that what reached the stream before a failure is
    known. *)

Definition EmitNode_command (ext : Externals) (g : Generator)
  (cmd_buf : text) : text :=
  if (100 * 1000 <? Z.of_nat (length cmd_buf))%Z then
    str " rspfile = $out.rsp" ++ [ch_nl]
    ++ str " rspfile_content = " ++ cmd_buf ++ [ch_nl]
    ++ str " command = " ++ shell_ g ++ str " $out.rsp" ++ [ch_nl]
  else
    str " command = " ++ shell_ g ++ [ch_space] ++ shell_flags_ g
    ++ [ch_space; ch_dquote] ++ EscapeShell ext cmd_buf
    ++ [ch_dquote; ch_nl].

Definition EmitNode (ext : Externals) (fl : Flags) (nn : NinjaNode)
  (out : text) (g : Generator) : text * outcome Generator :=
  let node := nn_node nn in
  if IsSpecialTarget ext (output node) then (out, Ok g)
  else
    let out :=
      if enable_debug fl
      then out ++ str "# "
               ++ match loc_filename node with
                  | Some f => f
                  | None => str "(null)"
                  end
               ++ [ch_colon] ++ int_text (loc_lineno node) ++ [ch_nl]
      else out in
    match nn_commands nn with
    | [] =>
        let '(out, g) := EmitBuild fl nn (str "phony") false out g in
        (out, Ok g)
    | commands =>
        let rule_name := str "rule" ++ int_text (nn_rule_id nn) in
        let out := out ++ str "rule " ++ rule_name ++ [ch_nl] in
        match GenShellScript fl g (c_str (output node)) commands []
                (str "build $out") with
        | Abort f => (out, Abort f)
        | Ok (use_local_pool, cmd_buf, description) =>
            let out := out ++ str " description = " ++ description
                           ++ [ch_nl] in
            match GetDepfile fl node cmd_buf [] with
            | Abort f => (out, Abort f)
            | Ok (has_depfile, cmd_buf, depfile) =>
                let out :=
                  if has_depfile
                  then out ++ str " depfile = " ++ depfile ++ [ch_nl]
                           ++ str " deps = gcc" ++ [ch_nl]
                  else out in
                let out := out ++ EmitNode_command ext g cmd_buf in
                let out := if is_restat node
                           then out ++ str " restat = 1" ++ [ch_nl]
                           else out in
                let '(out, g) :=
                  EmitBuild fl nn rule_name use_local_pool out g in
                (out, Ok g)
            end
        end
    end.

(** ** GenerateNinja (lines 621-679) *)

Fixpoint EmitNodes (ext : Externals) (fl : Flags) (nodes : list NinjaNode)
  (out : text) (g : Generator) : text * outcome Generator :=
  match nodes with
  | [] => (out, Ok g)
  | nn :: rest =>
      match EmitNode ext fl nn out g with
      | (out, Ok g) => EmitNodes ext fl rest out g
      | (out, Abort f) => (out, Abort f)
      end
  end.

(** The order of the keys of a [std::map<string, string>]. *)
Fixpoint text_ltb (a b : text) : bool :=
  match a, b with
  | _, [] => false
  | [], _ :: _ => true
  | x :: a', y :: b' =>
      (nat_of_ascii x <? nat_of_ascii y)
      || ((nat_of_ascii x =? nat_of_ascii y) && text_ltb a' b')
  end.

(** [m.emplace(k, v)]: nothing happens when the key is there. *)
Fixpoint map_emplace (k v : text) (m : list (text * text))
  : list (text * text) :=
  match m with
  | [] => [(k, v)]
  | (k', v') :: m' =>
      if bool_decide (k = k') then m
      else if text_ltb k k' then (k, v) :: m
      else (k', v') :: map_emplace k v m'
  end.

(** Lines 627-648. *)
Definition GenerateNinja_prelude (ext : Externals) (fl : Flags)
  (g : Generator) : text :=
  str "# Generated by kati " ++ kGitVersion ext ++ [ch_nl; ch_nl]
  ++ match used_envs_ g with
     | [] => []
     | envs =>
         str "# Environment variables used:" ++ [ch_nl]
         ++ flat_map (fun p => str "# " ++ fst p ++ str "=" ++ snd p
                               ++ [ch_nl]) envs
         ++ [ch_nl]
     end
  ++ (if negb (no_ninja_prelude fl) then
        match ninja_dir fl with
        | Some d => str "builddir = " ++ d ++ [ch_nl; ch_nl]
        | None => []
        end
        ++ str "pool local_pool" ++ [ch_nl]
        ++ str " depth = " ++ int_text (num_jobs fl) ++ [ch_nl; ch_nl]
        ++ (if negb (use_ninja_phony_output fl)
            then str "build _kati_always_build_: phony" ++ [ch_nl; ch_nl]
            else [])
      else []).

(** Lines 656-662. *)
Definition record_used_envs (ext : Externals) (g : Generator) : Generator :=
  set_used_envs
    (fold_left
       (fun m e => map_emplace e
                     match getenv ext (c_str e) with
                     | Some v => v
                     | None => []
                     end m)
       (used_env_vars ext ++ [str "PATH"]) (used_envs_ g))
    g.

(** The loop of lines 669-673. *)
Definition join_targets (ts : list text) : text :=
  fold_left (fun default_targets s =>
               (match default_targets with
                | [] => []
                | _ => default_targets ++ [ch_space]
                end) ++ EscapeBuildTarget s)
            ts [].

(** Lines 664-674. *)
Definition default_targets_of (fl : Flags) (g : Generator) : outcome text :=
  if bool_decide (targets fl = []) || gen_all_targets fl then
    match default_target_ g with
    | None => Abort CheckFailed
    | Some node => Ok (EscapeBuildTarget (output node))
    end
  else Ok (join_targets (targets fl)).

(** The text sent to the ninja file and the outcome. *)
Definition GenerateNinja (ext : Externals) (fl : Flags) (g : Generator)
  : text * outcome Generator :=
  let out := GenerateNinja_prelude ext fl g in
  let '(out, r) :=
    if negb (generate_empty_ninja fl) then EmitNodes ext fl (nodes_ g) out g
    else (out, Ok g) in
  match r with
  | Abort f => (out, Abort f)
  | Ok g =>
      let g := record_used_envs ext g in
      match default_targets_of fl g with
      | Abort f => (out, Abort f)
      | Ok default_targets =>
          let out :=
            if negb (generate_empty_ninja fl)
            then out ++ [ch_nl] ++ str "default " ++ default_targets
                     ++ [ch_nl]
            else out in
          (out, Ok g)
      end
  end.

(** ** The files of a run (lines 211-220 and 828-838) *)

Definition GetFilename (fl : Flags) (before after : text) : text :=
  match ninja_dir fl with Some d => d | None => str "." end
  ++ [ch_slash] ++ before
  ++ match ninja_suffix fl with Some x => x | None => [] end
  ++ after.

Definition GetStampTempFilename (fl : Flags) : text :=
  GetFilename fl (str ".kati_stamp") (str ".tmp").
Definition GetEnvScriptFilename (fl : Flags) : text :=
  GetFilename fl (str "env") (str ".sh").
Definition GetNinjaFilename (fl : Flags) : text :=
  GetFilename fl (str "build") (str ".ninja").
Definition GetNinjaShellScriptFilename (fl : Flags) : text :=
  GetFilename fl (str "ninja") (str ".sh").
Definition GetNinjaStampFilename (fl : Flags) : text :=
  GetFilename fl (str ".kati_stamp") [].

(** What a run does to the file system, one step at a time.  A stream is
    buffered, so its bytes reach the file at moments the code does not
    choose; writing them one by one makes every such moment a state between
    two steps. *)
Inductive fs_op : Type :=
  | Unlink (path : text)
  | Open (path : text)
  | Write (path : text) (c : ascii)
  | Rename (from to : text)
  | Chmod (path : text).

Definition fs_step (fs : gmap text text) (op : fs_op) : gmap text text :=
  match op with
  | Unlink p => delete p fs
  | Open p => <[p := []]> fs
  | Write p c => alter (fun s => s ++ [c]) p fs
  | Rename a b =>
      match fs !! a with
      | Some s => <[b := s]> (delete a fs)
      | None => fs
      end
  | Chmod _ => fs
  end.

Definition fs_run (ops : list fs_op) (fs : gmap text text)
  : gmap text text :=
  fold_left fs_step ops fs.

(** [fopen(path, "wb")], or the [ofstream], and the bytes written. *)
Definition write_file (path content : text) : list fs_op :=
  Open path :: map (Write path) content.

(** ** GenerateShell (lines 681-723) *)

Definition env_script (ext : Externals) : text :=
  str "#!/bin/sh" ++ [ch_nl]
  ++ str "# Generated by kati " ++ kGitVersion ext ++ [ch_nl]
  ++ [ch_nl]
  ++ flat_map
       (fun p : text * bool =>
          if snd p
          then str "export '" ++ c_str (fst p) ++ str "'='"
               ++ c_str (EvalVar ext (fst p)) ++ str "'" ++ [ch_nl]
          else str "unset '" ++ c_str (fst p) ++ str "'" ++ [ch_nl])
       (exports ext).

Definition ninja_script (ext : Externals) (fl : Flags) : text :=
  str "#!/bin/sh" ++ [ch_nl]
  ++ str "# Generated by kati " ++ kGitVersion ext ++ [ch_nl]
  ++ [ch_nl]
  ++ str ". " ++ c_str (GetEnvScriptFilename fl) ++ [ch_nl]
  ++ str "exec ninja -f " ++ c_str (GetNinjaFilename fl) ++ [ch_space]
  ++ (if (0 <? remote_num_jobs fl)%Z
      then str "-j" ++ int_text (remote_num_jobs fl) ++ [ch_space]
      else match goma_dir fl with
           | Some _ => str "-j500 "
           | None => []
           end)
  ++ [ch_dquote] ++ str "$@" ++ [ch_dquote; ch_nl].

Definition GenerateShell (ext : Externals) (fl : Flags) : list fs_op :=
  write_file (GetEnvScriptFilename fl) (env_script ext)
  ++ write_file (GetNinjaShellScriptFilename fl) (ninja_script ext fl)
  ++ [Chmod (GetNinjaShellScriptFilename fl)].

(** ** GenerateStamp (lines 725-809) *)

(** [DumpInt(fp, n)] for a size: the [size_t] is converted to [int]. *)
Definition dump_size (ext : Externals) (n : nat) : text :=
  DumpInt ext (wrap_int (Z.of_nat n)).

Definition dump_strings (ext : Externals) (l : list text) : text :=
  dump_size ext (length l) ++ flat_map (DumpString ext) l.

(** Lines 780-801. *)
Definition dump_find (ext : Externals) (f : FindCommand) : text :=
  let missing_dirs :=
    filter (fun d => negb (Exists ext d))
           (map (ConcatDir ext (chdir f)) (finddirs f)) in
  dump_strings ext missing_dirs
  ++ dump_strings ext (map (ConcatDir ext (chdir f)) (found_files f))
  ++ dump_strings ext (map (ConcatDir ext (chdir f)) (read_dirs f)).

Definition dump_command_result (ext : Externals) (cr : CommandResult)
  : text :=
  DumpInt ext (cr_op cr)
  ++ DumpString ext (cr_shell cr)
  ++ DumpString ext (cr_shellflag cr)
  ++ DumpString ext (cr_cmd cr)
  ++ DumpString ext (cr_result cr)
  ++ DumpString ext (cr_loc_filename cr)
  ++ DumpInt ext (cr_loc_lineno cr)
  ++ match cr_find cr with
     | Some f => dump_find ext f
     | None => []
     end.

(** The bytes of a complete stamp, in the order they are written. *)
Definition stamp_bytes (ext : Externals) (g : Generator) (orig_args : text)
  : text :=
  start_time_ g
  ++ dump_size ext (length (makefile_names ext) + 1)
  ++ DumpString ext (kati_binary_ g)
  ++ flat_map (DumpString ext) (makefile_names ext)
  ++ dump_strings ext (used_undefined_vars ext)
  ++ dump_size ext (length (used_envs_ g))
  ++ flat_map (fun p => DumpString ext (fst p) ++ DumpString ext (snd p))
              (used_envs_ g)
  ++ dump_size ext (length (glob_cache ext))
  ++ flat_map (fun p => DumpString ext (fst p) ++ dump_strings ext (snd p))
              (glob_cache ext)
  ++ dump_size ext (length (shell_command_results ext))
  ++ flat_map (dump_command_result ext) (shell_command_results ext)
  ++ DumpString ext orig_args.

Definition GenerateStamp (ext : Externals) (fl : Flags) (g : Generator)
  (orig_args : text) : list fs_op :=
  write_file (GetStampTempFilename fl) (stamp_bytes ext g orig_args)
  ++ [Rename (GetStampTempFilename fl) (GetNinjaStampFilename fl)].

(** ** Generate (lines 180-209 and 840-846) *)

Definition NinjaGenerator_new (ext : Externals) (fl : Flags)
  (start_time : text) : Generator :=
  let use_goma_str := EvalVar ext (str "USE_GOMA") in
  {| done_ := ∅;
     rule_id_ := 0;
     use_goma_ := negb (bool_decide (use_goma_str = [])
                        || bool_decide (use_goma_str = str "false"));
     gomacc_ := match goma_dir fl with
                | Some d => d ++ str "/gomacc "
                | None => []
                end;
     shell_ := EscapeNinja (GetShell ext);
     shell_flags_ := EscapeNinja (GetShellFlag ext);
     used_envs_ := [];
     kati_binary_ := executable_path ext;
     start_time_ := start_time;
     nodes_ := [];
     default_target_ := None |}.

(** The steps of [Generate] on the file system; a failure ends them. *)
Definition Generate (ext : Externals) (fl : Flags) (g : Generator)
  (nodes : list (text * DepNode)) (orig_args : text) : list fs_op :=
  let g := PopulateNinjaNodes fl nodes g in
  let '(ninja_text, r) := GenerateNinja ext fl g in
  [Unlink (GetNinjaStampFilename fl)]
  ++ write_file (GetNinjaFilename fl) ninja_text
  ++ match r with
     | Abort _ => []
     | Ok g => GenerateShell ext fl ++ GenerateStamp ext fl g orig_args
     end.

(** The generator after the nodes were emitted, when no step failed. *)
Definition generator_at_stamp (ext : Externals) (fl : Flags) (g : Generator)
  (nodes : list (text * DepNode)) : outcome Generator :=
  snd (GenerateNinja ext fl (PopulateNinjaNodes fl nodes g)).


(** ** Variables (var.h) *)

(** [enum struct VarOrigin : char], in the order of its declaration. *)
Inductive VarOrigin : Set :=
  | UNDEFINED
  | DEFAULT
  | ENVIRONMENT
  | ENVIRONMENT_OVERRIDE
  | FILE
  | COMMAND_LINE
  | OVERRIDE
  | AUTOMATIC.

(** The four classes derived from [Var]. *)
Inductive VarKind : Set :=
  | SimpleVar
  | RecursiveVar
  | UndefinedVar
  | VariableNamesVar.

(** [Flavor()], as each class overrides it. *)
Definition Flavor (k : VarKind) : string :=
  match k with
  | SimpleVar => "simple"
  | RecursiveVar => "recursive"
  | UndefinedVar => "undefined"
  | VariableNamesVar => "kati_variable_names"
  end.

(** [IsDefined()]: true in [Var], overridden by [UndefinedVar] and by
    [VariableNamesVar]. *)
Definition IsDefined (k : VarKind) : bool :=
  match k with
  | SimpleVar => true
  | RecursiveVar => true
  | UndefinedVar => false
  | VariableNamesVar => true
  end.

(** ** Notions of the specification, and data for the examples *)

(** The reading of an escaped name, as the build executor does it: a [$]
    makes the next character literal. *)
Fixpoint UnescapeNinja (s : text) : text :=
  match s with
  | [] => []
  | c :: rest =>
      if Ascii.eqb c ch_dollar then
        match rest with
        | [] => []
        | c2 :: rest' => c2 :: UnescapeNinja rest'
        end
      else c :: UnescapeNinja rest
  end.

(** The escaped form of one character: a [$] before [$], [:] and space. *)
Definition escape_char (c : ascii) : text :=
  if needs_escape c then [ch_dollar; c] else [c].

(** A character that the scanning loop copies as it is and that the final
    stripping keeps: no [#], quote, [$], newline or backslash, no white
    space and no [;]. *)
Definition word_char (c : ascii) : bool :=
  negb (Ascii.eqb c ch_hash) && negb (is_quote_char c)
  && negb (Ascii.eqb c ch_dollar) && negb (Ascii.eqb c ch_nl)
  && negb (Ascii.eqb c ch_bslash) && negb (isspace c)
  && negb (Ascii.eqb c ch_semi).

(** Flags with every feature off, for examples. *)
Definition plain_flags : Flags :=
  {| detect_android_echo := false; detect_depfiles := false;
     enable_debug := false; gen_all_targets := false;
     generate_empty_ninja := false; no_ninja_prelude := false;
     use_ninja_phony_output := false; goma_dir := None;
     default_pool := None; ninja_dir := None; ninja_suffix := None;
     num_jobs := 1; remote_num_jobs := 0; targets := [] |}.

(** A generator as the constructor leaves it, with [/bin/sh -c] as shell. *)
Definition fresh_generator : Generator :=
  {| done_ := ∅; rule_id_ := 0; use_goma_ := false; gomacc_ := [];
     shell_ := str "/bin/sh"; shell_flags_ := str "-c"; used_envs_ := [];
     kati_binary_ := str "ckati"; start_time_ := [];
     nodes_ := []; default_target_ := None |}.

Definition command (s : text) (echoed : bool) : Command :=
  {| cmd := s; echo := echoed; ignore_error := false |}.

(** The text after [echo ] of a command that gives a description: pieces
    outside quotes, free of backslashes, quotes and the shell's
    [< > & | ;]; pieces between two equal quote characters, free of
    backslashes and of that quote; and, outside quotes, a backslash with the
    character it escapes. *)
Inductive segment : Type :=
  | Plain (t : text)
  | Quoted (q : ascii) (t : text)
  | Escaped (c : ascii).

Definition render_segment (s : segment) : text :=
  match s with
  | Plain t => t
  | Quoted q t => q :: t ++ [q]
  | Escaped c => [ch_bslash; c]
  end.

Definition segment_text (s : segment) : text :=
  match s with
  | Plain t => t
  | Quoted _ t => t
  | Escaped c => [ch_bslash; c]
  end.

Definition plain_echo_char (c : ascii) : bool :=
  negb (Ascii.eqb c ch_bslash) && negb (is_quote_char c)
  && negb (is_shell_meta c).

Definition quoted_echo_char (q c : ascii) : bool :=
  negb (Ascii.eqb c ch_bslash) && negb (Ascii.eqb c q).

Definition segment_ok (s : segment) : bool :=
  match s with
  | Plain t => forallb plain_echo_char t
  | Quoted q t => is_quote_char q && forallb (quoted_echo_char q) t
  | Escaped _ => true
  end.

Definition echo_flags : Flags :=
  {| detect_android_echo := true; detect_depfiles := false;
     enable_debug := false; gen_all_targets := false;
     generate_empty_ninja := false; no_ninja_prelude := false;
     use_ninja_phony_output := false; goma_dir := None;
     default_pool := None; ninja_dir := None; ninja_suffix := None;
     num_jobs := 1; remote_num_jobs := 0; targets := [] |}.

(** A word: no white space in it. *)
Definition no_space (w : text) : bool :=
  forallb (fun c => negb (isspace c)) w.


Definition depfile_flags : Flags :=
  {| detect_android_echo := false; detect_depfiles := true;
     enable_debug := false; gen_all_targets := false;
     generate_empty_ninja := false; no_ninja_prelude := false;
     use_ninja_phony_output := false; goma_dir := None;
     default_pool := None; ninja_dir := None; ninja_suffix := None;
     num_jobs := 1; remote_num_jobs := 0; targets := [] |}.

(** A node with a recipe and nothing else. *)
Definition rule_node (name : text) (commands : list Command) : DepNode :=
  {| output := name; has_rule := true; is_phony := false;
     is_default_target := false; is_restat := false;
     eval_commands := commands; deps := []; order_onlys := [];
     validations := []; implicit_outputs := []; symlink_outputs := [];
     depfile_var := None; ninja_pool_var := None;
     loc_filename := None; loc_lineno := 0 |}.

(** A node without a recipe, with the given dependencies. *)
Definition plain_node (name : text) (phony : bool)
  (ds : list (text * DepNode)) : DepNode :=
  {| output := name; has_rule := false; is_phony := phony;
     is_default_target := false; is_restat := false;
     eval_commands := []; deps := ds; order_onlys := [];
     validations := []; implicit_outputs := []; symlink_outputs := [];
     depfile_var := None; ninja_pool_var := None;
     loc_filename := None; loc_lineno := 0 |}.

(** [top] is phony and depends on the file [gen.h], which has no rule of its
    own but depends on [tool], which has a recipe. *)
Definition tool_node : DepNode :=
  rule_node (str "tool") [command (str "cc -o tool tool.c") true].
Definition leaf_node : DepNode :=
  plain_node (str "gen.h") false [(str "tool", tool_node)].
Definition top_node : DepNode :=
  plain_node (str "top") true [(str "gen.h", leaf_node)].





(** The node that the emission of [nodes] leaves in [default_target_]: the
    last one that is flagged and that is not a special target. *)
Definition emitted_default (ext : Externals) (nodes : list NinjaNode)
  (init : option DepNode) : option DepNode :=
  fold_left
    (fun acc nn =>
       if negb (IsSpecialTarget ext (output (nn_node nn)))
          && is_default_target (nn_node nn)
       then Some (nn_node nn) else acc)
    nodes init.

(** Stand-ins for what lies outside the two source files, for the examples:
    no special targets, no shell escaping, an empty environment, integers
    dumped as four bytes and strings after their length. *)
Definition sample_DumpInt (z : Z) : text :=
  map (fun i => ascii_of_nat (Z.to_nat ((z / 2 ^ (8 * i)) mod 256)))
      [0; 1; 2; 3]%Z.

Definition sample_externals : Externals :=
  {| kGitVersion := str "unknown";
     IsSpecialTarget := fun _ => false;
     EscapeShell := fun s => s;
     used_env_vars := [];
     getenv := fun _ => None;
     exports := [];
     EvalVar := fun _ => [];
     DumpInt := sample_DumpInt;
     DumpString := fun s => sample_DumpInt (Z.of_nat (length s)) ++ s;
     Exists := fun _ => true;
     ConcatDir := fun a b => a ++ [ch_slash] ++ b;
     makefile_names := [str "Makefile"];
     used_undefined_vars := [];
     glob_cache := [];
     shell_command_results := [];
     GetShell := str "/bin/sh";
     GetShellFlag := str "-c";
     executable_path := str "ckati" |}.

(** Lines of text, each ended by a newline. *)
Definition unlines (l : list string) : text :=
  flat_map (fun s => str s ++ [ch_nl]) l.

(** A phony node flagged as the default target. *)
Definition all_node : DepNode :=
  {| output := str "all"; has_rule := false; is_phony := true;
     is_default_target := true; is_restat := false;
     eval_commands := []; deps := []; order_onlys := [];
     validations := []; implicit_outputs := []; symlink_outputs := [];
     depfile_var := None; ninja_pool_var := None;
     loc_filename := None; loc_lineno := 0 |}.

(** The run names the target [foo] and asks for all targets. *)
Definition gen_all_flags : Flags :=
  {| detect_android_echo := false; detect_depfiles := false;
     enable_debug := false; gen_all_targets := true;
     generate_empty_ninja := false; no_ninja_prelude := false;
     use_ninja_phony_output := false; goma_dir := None;
     default_pool := None; ninja_dir := None; ninja_suffix := None;
     num_jobs := 1; remote_num_jobs := 0; targets := [str "foo"] |}.

Definition all_generator (fl : Flags) : Generator :=
  PopulateNinjaNodes fl [(str "all", all_node)] fresh_generator.

(** Name what [EmitBuild] returns and state [lem] about it. *)
Ltac use_EmitBuild lem :=
  match goal with
  | |- context [EmitBuild ?a ?b ?c ?d ?e ?f] =>
      let D := fresh "D" in
      pose proof (lem a b c d e f) as D;
      destruct (EmitBuild a b c d e f); cbn [snd] in D
  end.

(** A step that leaves the file at [q] alone. *)
Definition avoids (q : text) (op : fs_op) : Prop :=
  match op with
  | Unlink p | Open p | Write p _ => p <> q
  | Rename a b => a <> q /\ b <> q
  | Chmod _ => True
  end.

(** A file system that holds the stamp of an earlier run. *)
Definition earlier_fs : gmap text text :=
  {[ GetNinjaStampFilename plain_flags := str "stamp of the run before" ]}.

(** What the scanning loop keeps true of its state, for the buffer [orig]
    it started from: the buffer is [orig] followed by what the loop added,
    no newline was added, and while [prev_backslash] is set the last thing
    added is the backslash just read. *)
Definition scan_inv (orig : text) (st : scan_state) : Prop :=
  exists app,
    sc_buf st = orig ++ app
    /\ Forall (fun c => c <> ch_nl) app
    /\ (sc_prev_backslash st = true ->
        sc_prev_char st = ch_bslash /\ exists app', app = app' ++ [ch_bslash]).

(** The part of it that also holds when the input ends in a comment. *)
Definition scan_grown (orig : text) (st : scan_state) : Prop :=
  exists app, sc_buf st = orig ++ app /\ Forall (fun c => c <> ch_nl) app.

(** A character with no meaning of its own outside quotes, but for the
    doubling of [$]: no [#], quote, newline or backslash. *)
Definition literal_char (c : ascii) : bool :=
  negb (Ascii.eqb c ch_hash) && negb (is_quote_char c)
  && negb (Ascii.eqb c ch_nl) && negb (Ascii.eqb c ch_bslash).

(** A character with no meaning of its own inside a quote opened by [q]:
    no newline or backslash, and not [q]. *)
Definition in_quote_char (q c : ascii) : bool :=
  negb (Ascii.eqb c ch_nl) && negb (Ascii.eqb c ch_bslash)
  && negb (Ascii.eqb c q).

Definition double_dollar (c : ascii) : text :=
  if Ascii.eqb c ch_dollar then str "$$" else [c].

(** The text with every [$] doubled. *)
Definition dollars_doubled (t : text) : text := flat_map double_dollar t.

(** The text ends in a character that the stripping of the tail keeps. *)
Definition keeps_tail (t : text) : bool :=
  match rev t with
  | c :: _ => negb (isspace c) && negb (Ascii.eqb c ch_semi)
  | [] => false
  end.

(** The buffer that [GenShellScript] hands to [TranslateCommand] for the
    command [c] in the state [s]. *)
Definition buffer_for (c : Command) (s : shell_state) : text :=
  let buf := match sh_cmd_buf s with
             | [] => []
             | _ => sh_cmd_buf s ++ str " && "
             end in
  if (1 <? sh_command_count s) || ignore_error c then buf ++ str "("
  else buf.

(** A command that is echoed, starts with no white space, holds no NUL and
    is literal text that ends well. *)
Definition plain_command (c : Command) : bool :=
  echo c && forallb literal_char (cmd c) && keeps_tail (cmd c)
  && forallb (fun x => negb (Ascii.eqb x ch_nul)) (cmd c)
  && match cmd c with
     | x :: _ => negb (isspace x)
     | [] => false
     end.

(** The text of one command in a recipe of [n] commands. *)
Definition wrapped (n : nat) (c : Command) : text :=
  if (1 <? n) || ignore_error c
  then str "(" ++ dollars_doubled (cmd c)
       ++ (if ignore_error c then str " ; true" else []) ++ str " )"
  else dollars_doubled (cmd c).

(** Texts joined by [ && ]. *)
Definition and_chain (l : list text) : text :=
  match l with
  | [] => []
  | x :: l' => x ++ flat_map (fun y => str " && " ++ y) l'
  end.

Definition mentions_gomacc (c : Command) : bool :=
  if find (str "/gomacc") (dollars_doubled (cmd c)) is Some _ then true
  else false.

(** The reading of a list of escaped names, each with a space before it:
    a space starts a name, a [$] makes the next character part of the
    name. *)
Fixpoint read_names (s : text) (done : list text) (cur : option text)
  : list text :=
  match s with
  | [] => done ++ option_list cur
  | c :: rest =>
      if Ascii.eqb c ch_space
      then read_names rest (done ++ option_list cur) (Some [])
      else if Ascii.eqb c ch_dollar then
        match rest with
        | [] => done ++ option_list cur
        | c2 :: rest' =>
            read_names rest' done (Some (default [] cur ++ [c2]))
        end
      else read_names rest done (Some (default [] cur ++ [c]))
  end.

(** The five files of a run. *)
Definition run_files (fl : Flags) : list text :=
  [GetNinjaFilename fl; GetEnvScriptFilename fl;
   GetNinjaShellScriptFilename fl; GetNinjaStampFilename fl;
   GetStampTempFilename fl].

Definition nn_output (nn : NinjaNode) : text := output (nn_node nn).

(** What holds of every [NinjaNode] that the traversal makes: its node has
    a recipe or is phony, it carries the commands of its node, it has the
    rule number -1 when it has no command, and under the Android flag it is
    not the node [out]. *)
Definition made_well (fl : Flags) (nn : NinjaNode) : Prop :=
  has_rule (nn_node nn) || is_phony (nn_node nn) = true
  /\ nn_commands nn = eval_commands (nn_node nn)
  /\ (nn_commands nn = [] -> nn_rule_id nn = (-1)%Z)
  /\ (detect_android_echo fl = true -> nn_output nn <> str "out").

(** What a part of the traversal does to the generator: outputs are only
    added to [done_], nodes are only added to [nodes_], and the added nodes
    are made well, were not visited before, are visited now and have
    different outputs. *)
Definition traversed (fl : Flags) (g g' : Generator) : Prop :=
  done_ g ⊆ done_ g'
  /\ exists added,
       nodes_ g' = nodes_ g ++ added
       /\ Forall (fun nn => made_well fl nn /\ nn_output nn ∈ done_ g'
                            /\ nn_output nn ∉ done_ g) added
       /\ NoDup (map nn_output added).

(** Induction over a node and the nodes below it. *)
Section DepNode_induction.
Variable P : DepNode -> Prop.
Hypothesis step : forall node,
  Forall (fun d => P (snd d)) (deps node) ->
  Forall (fun d => P (snd d)) (order_onlys node) ->
  Forall (fun d => P (snd d)) (validations node) ->
  P node.

Fixpoint DepNode_below (node : DepNode) : P node :=
  let below :=
    fix below (l : list (text * DepNode))
      : Forall (fun d => P (snd d)) l :=
      match l with
      | [] => @List.Forall_nil _ (fun d => P (snd d))
      | d :: l' =>
          @List.Forall_cons _ (fun d => P (snd d)) d l'
            (DepNode_below (snd d)) (below l')
      end in
  match node with
  | mkDepNode o hr ph dt rs ec ds oo vs io so dv pv lf ll =>
      step (mkDepNode o hr ph dt rs ec ds oo vs io so dv pv lf ll)
           (below ds) (below oo) (below vs)
  end.
End DepNode_induction.

(** The value recorded for an environment variable: what [getenv] gives for
    it, or the empty text. *)
Definition env_value (ext : Externals) (k : text) : text :=
  match getenv ext (c_str k) with
  | Some v => v
  | None => []
  end.

(** The keys of the entries grow strictly from each entry to the next. *)
Fixpoint keys_sorted (m : list (text * text)) : Prop :=
  match m with
  | [] => True
  | p :: m' =>
      Forall (fun q => text_ltb (fst p) (fst q) = true) m' /\ keys_sorted m'
  end.

(** Flags that ask for an empty ninja file and name no target. *)
Definition empty_file_flags : Flags :=
  {| detect_android_echo := false; detect_depfiles := false;
     enable_debug := false; gen_all_targets := false;
     generate_empty_ninja := true; no_ninja_prelude := false;
     use_ninja_phony_output := false; goma_dir := None;
     default_pool := None; ninja_dir := None; ninja_suffix := None;
     num_jobs := 1; remote_num_jobs := 0; targets := [] |}.

(** * Strings *)

Lemma starts_with_length (needle hay : text) :
  starts_with needle hay = true -> length needle <= length hay.
Proof.
  revert hay. induction needle as [|a n IH]; intros [|b h]; simpl;
    intros H; try lia; try discriminate.
  apply andb_true_iff in H as [_ H]. apply IH in H. lia.
Qed.

Lemma rfind_at_zero (needle hay : text) :
  rfind needle 0 hay = if starts_with needle hay then Some 0 else None.
Proof.
  unfold rfind. destruct (length needle <=? length hay) eqn:E.
  - rewrite Nat.min_0_r. reflexivity.
  - destruct (starts_with needle hay) eqn:S; [|reflexivity].
    apply starts_with_length in S. apply Nat.leb_gt in E. lia.
Qed.

Lemma make_to_ninja_cases (buf : text) :
  make_to_ninja buf =
  if starts_with (str "make ") buf then str "ninja " ++ drop 5 buf else buf.
Proof.
  unfold make_to_ninja. rewrite rfind_at_zero.
  destruct (starts_with (str "make ") buf); case_decide;
    try reflexivity; congruence.
Qed.

Lemma make_to_ninja_idem (buf : text) :
  make_to_ninja (make_to_ninja buf) = make_to_ninja buf.
Proof.
  rewrite (make_to_ninja_cases buf).
  destruct (starts_with (str "make ") buf) eqn:E.
  - rewrite make_to_ninja_cases. reflexivity.
  - rewrite make_to_ninja_cases, E. reflexivity.
Qed.

(** * EscapeNinja *)

Lemma escape_fold (s r : text) :
  fold_left escape_step s r = r ++ flat_map escape_char s.
Proof.
  revert r. induction s as [|c s IH]; intros r; simpl.
  - now rewrite app_nil_r.
  - rewrite IH. unfold escape_step, escape_char.
    destruct (needs_escape c); simpl; now rewrite <- ?app_assoc.
Qed.

Lemma needs_escape_set (c : ascii) :
  existsb (Ascii.eqb c) (str "$: ") = needs_escape c.
Proof.
  unfold needs_escape, ch_dollar, ch_colon, ch_space. simpl.
  repeat match goal with
         | |- context [Ascii.eqb c ?x] => destruct (Ascii.eqb c x)
         end; reflexivity.
Qed.

Lemma find_first_of_none (s : text) :
  find_first_of (str "$: ") s = None <-> existsb needs_escape s = false.
Proof.
  induction s as [|c s IH]; [easy|].
  cbn [find_first_of existsb]. rewrite needs_escape_set.
  destruct (needs_escape c); [split; [discriminate | simpl; discriminate]|].
  rewrite orb_false_l.
  destruct (find_first_of (str "$: ") s) eqn:F;
    unfold fmap, option_fmap, option_map.
  - split; [discriminate | intros H; apply IH in H; discriminate].
  - split; [intros _; now apply IH | reflexivity].
Qed.

Lemma escape_nothing (s : text) :
  existsb needs_escape s = false -> flat_map escape_char s = s.
Proof.
  induction s as [|c s IH]; [easy|]. cbn [existsb flat_map].
  intros H. apply orb_false_iff in H as [Hc Hs].
  unfold escape_char at 1. rewrite Hc, IH by assumption. reflexivity.
Qed.

Lemma EscapeNinja_flat_map (s : text) :
  EscapeNinja s = flat_map escape_char s.
Proof.
  unfold EscapeNinja. destruct (find_first_of (str "$: ") s) eqn:E.
  - apply escape_fold.
  - apply find_first_of_none in E. now rewrite escape_nothing.
Qed.

Lemma unescape_escape (s : text) :
  UnescapeNinja (flat_map escape_char s) = s.
Proof.
  induction s as [|c s IH]; [easy|]. cbn [flat_map].
  unfold escape_char at 1. destruct (needs_escape c) eqn:E.
  - cbn. now rewrite IH.
  - cbn [app UnescapeNinja].
    replace (Ascii.eqb c ch_dollar) with false; [now rewrite IH|].
    unfold needs_escape in E. destruct (Ascii.eqb c ch_dollar); easy.
Qed.



(** * TranslateCommand *)

Lemma resize_minus_one_snoc (b : text) (c : ascii) :
  resize_minus_one (b ++ [c]) = Ok b.
Proof.
  unfold resize_minus_one. destruct (b ++ [c]) eqn:E.
  - destruct b; discriminate.
  - rewrite <- E, removelast_last. reflexivity.
Qed.



(** The newline that ends a comment goes with the comment. *)
Lemma scan_comment_newline (st : scan_state) (c : ascii) (rest : text) :
  scan true (ch_nl :: c :: rest) st
  = scan false (c :: rest) (after_char ch_nl st).
Proof. reflexivity. Qed.

Lemma word_char_step (c : ascii) (st : scan_state) :
  word_char c = true ->
  comment_start c st = false
  /\ switch_char c st = Ok (set_buf (sc_buf st ++ [c]) st)
  /\ isspace c = false /\ Ascii.eqb c ch_semi = false
  /\ Ascii.eqb c ch_bslash = false.
Proof.
  unfold word_char, comment_start, switch_char. intros H.
  repeat (apply andb_true_iff in H as [H ?]).
  repeat match goal with
         | H : negb ?b = true |- _ => apply negb_true_iff in H; rewrite ?H
         end.
  repeat split; reflexivity || assumption.
Qed.

Lemma last_default (w : text) (c d d' : ascii) :
  List.last (c :: w) d = List.last (c :: w) d'.
Proof.
  revert c. induction w as [|x w IH]; intros c; [reflexivity|].
  change (List.last (x :: w) d = List.last (x :: w) d'). apply IH.
Qed.

Lemma scan_word (w rest buf : text) (pc q : ascii) :
  forallb word_char w = true ->
  scan false (w ++ rest) (ScanState buf false pc q)
  = scan false rest (ScanState (buf ++ w) false (List.last w pc) q).
Proof.
  revert buf pc. induction w as [|c w IH]; intros buf pc Hw.
  - cbn [app List.last]. now rewrite app_nil_r.
  - cbn [forallb] in Hw. apply andb_true_iff in Hw as [Hc Hw].
    destruct (word_char_step c (ScanState buf false pc q) Hc)
      as (Hcs & Hsw & _ & _ & Hb).
    cbn [app scan orb]. rewrite Hcs, Hsw. cbn [mbind outcome_bind].
    unfold after_char. rewrite Hb. cbn [set_buf sc_buf sc_quote].
    rewrite IH by assumption. rewrite <- app_assoc.
    destruct w as [|x w]; [reflexivity|].
    rewrite (last_default w x c pc). reflexivity.
Qed.

Lemma scan_word_end (w buf : text) (pc q : ascii) :
  forallb word_char w = true ->
  scan false w (ScanState buf false pc q)
  = Ok (ScanState (buf ++ w) false (List.last w pc) q).
Proof.
  intros Hw. pose proof (scan_word w [] buf pc q Hw) as E.
  rewrite app_nil_r in E. exact E.
Qed.

Lemma strip_tail_word (x w : text) :
  forallb word_char w = true -> w <> [] -> strip_tail (x ++ w) = Ok (x ++ w).
Proof.
  intros Hw Hne. destruct (exists_last Hne) as (w' & c & ->).
  rewrite forallb_app in Hw. apply andb_true_iff in Hw as [_ Hc].
  cbn in Hc. rewrite andb_true_r in Hc.
  destruct (word_char_step c (scan_init []) Hc) as (_ & _ & Hs & Hsemi & _).
  unfold strip_tail. rewrite app_assoc, rev_unit. cbn [strip_tail_rev].
  rewrite Hs, Hsemi. cbn. rewrite rev_involutive. reflexivity.
Qed.

Lemma translate_tail (b t : text) :
  (length b <=? length (b ++ t)) = true /\ drop (length b) (b ++ t) = t.
Proof.
  split.
  - apply Nat.leb_le. rewrite length_app. lia.
  - now rewrite drop_app_length.
Qed.

(** C10. When the buffer handed to [TranslateCommand] begins with the five
    characters [make ], it is replaced by [ninja ] followed by what came
    after them, and otherwise it is kept; this happens before the input is
    scanned: the translation is the one against the new buffer, and a plain
    word is appended to the new buffer. *)
Theorem make_prefix_becomes_ninja (input buf : text) :
  make_to_ninja buf =
    (if starts_with (str "make ") buf then str "ninja " ++ drop 5 buf
     else buf)
  /\ TranslateCommand input buf = TranslateCommand input (make_to_ninja buf)
  /\ (forallb word_char input = true -> input <> [] ->
      TranslateCommand input buf
      = Ok ((if starts_with (str "make ") buf then str "ninja " ++ drop 5 buf
             else buf) ++ input, input)).
Proof.
  split; [apply make_to_ninja_cases|]. split.
  - unfold TranslateCommand. rewrite make_to_ninja_idem. reflexivity.
  - intros Hw Hne. rewrite <- make_to_ninja_cases.
    unfold TranslateCommand, scan_init.
    rewrite scan_word_end by assumption.
    cbn [mbind outcome_bind sc_prev_backslash sc_buf].
    rewrite strip_tail_word by assumption. cbn [mbind outcome_bind].
    destruct (translate_tail (make_to_ninja buf) input) as [-> ->].
    reflexivity.
Qed.

Lemma make_prefix_becomes_ninja_witness :
  TranslateCommand (str "all") (str "make ")
  = Ok (str "ninja all", str "all").
Proof.
  apply (proj2 (proj2 (make_prefix_becomes_ninja (str "all") (str "make "))));
    [reflexivity | discriminate].
Defined.




(** * TranslateCommand: the stripped tail *)

Lemma strip_tail_rev_ok (r r' : text) :
  strip_tail_rev r = Ok r' ->
  exists c r'', r' = c :: r'' /\ isspace c = false
                /\ Ascii.eqb c ch_semi = false.
Proof.
  induction r as [|c r IH]; cbn [strip_tail_rev]; [discriminate|].
  destruct (isspace c) eqn:Hs; cbn [negb andb]; [exact IH|].
  destruct (Ascii.eqb c ch_semi) eqn:Hc; cbn [negb]; [exact IH|].
  intros [= <-]. eauto.
Qed.

(** Whenever [TranslateCommand] gives a result, the piece it returns is
    empty or ends in a character that is neither white space nor [;]. *)
Lemma TranslateCommand_stripped (input buf buf' t : text) :
  TranslateCommand input buf = Ok (buf', t) ->
  t = [] \/ exists t' c, t = t' ++ [c] /\ isspace c = false
                         /\ Ascii.eqb c ch_semi = false.
Proof.
  unfold TranslateCommand.
  destruct (scan false input (scan_init (make_to_ninja buf))) as [st|];
    cbn [mbind outcome_bind]; [|discriminate].
  destruct (if sc_prev_backslash st then resize_minus_one (sc_buf st)
            else Ok (sc_buf st)) as [b1|];
    cbn [mbind outcome_bind]; [|discriminate].
  unfold strip_tail. destruct (strip_tail_rev (rev b1)) as [r|] eqn:E;
    cbn [mbind outcome_bind]; [|discriminate].
  destruct (strip_tail_rev_ok _ _ E) as (c & r'' & -> & Hs & Hc).
  set (n := length (make_to_ninja buf)).
  destruct (n <=? length (rev (c :: r''))) eqn:L; [|discriminate].
  intros [= <- <-]. apply Nat.leb_le in L. cbn [rev] in *.
  rewrite length_app in L. cbn [length] in L.
  destruct (decide (n = length (rev r'') + 1)) as [->|Hn].
  - left. apply drop_ge. rewrite length_app. cbn [length]. lia.
  - right. exists (drop n (rev r'')), c. split; [|easy].
    rewrite drop_app_le by lia. reflexivity.
Qed.

(** C5. A command that is only a comment, translated into an empty buffer,
    leaves the buffer empty, and the loop that strips the tail then reads the
    character before the buffer's first one; a recipe made of such a command
    fails in the same way.  A comment that ends in a backslash makes the
    buffer shrink below zero. *)
Theorem translate_comment_outside_buffer :
  TranslateCommand (str "# comment") [] = Abort OutOfRange
  /\ GenShellScript plain_flags fresh_generator (str "all")
       [command (str "# comment") true] [] (str "build $out")
     = Abort OutOfRange
  /\ TranslateCommand (str "#\") [] = Abort LengthError.
Proof. repeat split; vm_compute; reflexivity. Qed.

(** * Descriptions *)

Lemma description_scan_plain (t rest out : text) :
  forallb plain_echo_char t = true ->
  description_scan (t ++ rest) false ch_nul out
  = description_scan rest false ch_nul (out ++ t).
Proof.
  revert out. induction t as [|c t IH]; intros out H.
  - cbn [app]. now rewrite app_nil_r.
  - cbn [forallb] in H. apply andb_true_iff in H as [Hc Ht].
    unfold plain_echo_char in Hc.
    apply andb_true_iff in Hc as [Hc Hm].
    apply andb_true_iff in Hc as [Hb Hq].
    apply negb_true_iff in Hb, Hq, Hm.
    cbn [app description_scan]. rewrite Hb, Hq, Hm.
    rewrite Ascii.eqb_refl. cbn [negb].
    rewrite IH by assumption. now rewrite <- app_assoc.
Qed.

Lemma quote_char_not_special (q : ascii) :
  is_quote_char q = true ->
  Ascii.eqb q ch_nul = false /\ Ascii.eqb q ch_bslash = false.
Proof.
  unfold is_quote_char. intros H. split.
  - destruct (Ascii.eqb_spec q ch_nul) as [->|]; [discriminate H|reflexivity].
  - destruct (Ascii.eqb_spec q ch_bslash) as [->|];
      [discriminate H|reflexivity].
Qed.

Lemma description_scan_in_quote (q : ascii) (t rest out : text) :
  is_quote_char q = true ->
  forallb (quoted_echo_char q) t = true ->
  description_scan (t ++ q :: rest) false q out
  = description_scan rest false ch_nul (out ++ t).
Proof.
  intros Hq. destruct (quote_char_not_special q Hq) as [Hn Hqb].
  revert out. induction t as [|c t IH]; intros out H.
  - cbn [app description_scan].
    rewrite Hqb, Hn, Ascii.eqb_refl. cbn [negb]. now rewrite app_nil_r.
  - cbn [forallb] in H. apply andb_true_iff in H as [Hc Ht].
    unfold quoted_echo_char in Hc. apply andb_true_iff in Hc as [Hb Hcq].
    apply negb_true_iff in Hb, Hcq.
    cbn [app description_scan]. rewrite Hb, Hn, Hcq. cbn [negb].
    rewrite IH by assumption. now rewrite <- app_assoc.
Qed.

Lemma description_scan_segments (segs : list segment) (rest out : text) :
  forallb segment_ok segs = true ->
  description_scan (flat_map render_segment segs ++ rest) false ch_nul out
  = description_scan rest false ch_nul (out ++ flat_map segment_text segs).
Proof.
  revert out. induction segs as [|s segs IH]; intros out H.
  - cbn [flat_map app]. now rewrite app_nil_r.
  - cbn [forallb] in H. apply andb_true_iff in H as [Hs Hsegs].
    cbn [flat_map]. rewrite <- !app_assoc.
    destruct s as [t|q t|c];
      cbn [segment_ok render_segment segment_text] in *.
    + rewrite description_scan_plain by assumption.
      rewrite IH by assumption. now rewrite <- app_assoc.
    + apply andb_true_iff in Hs as [Hq Ht].
      destruct (quote_char_not_special q Hq) as [Hn Hqb].
      cbn [app description_scan]. rewrite Hqb, Hn, Hq. cbn [negb].
      rewrite <- app_assoc. cbn [app].
      rewrite description_scan_in_quote by assumption.
      rewrite IH by assumption. now rewrite <- app_assoc.
    + cbn [app description_scan]. rewrite Ascii.eqb_refl.
      rewrite IH by assumption. now rewrite <- !app_assoc.
Qed.

Lemma GetDescriptionFromCommand_echo (segs : list segment) :
  forallb segment_ok segs = true ->
  GetDescriptionFromCommand (str "echo " ++ flat_map render_segment segs)
  = Some (flat_map segment_text segs).
Proof.
  intros H. unfold GetDescriptionFromCommand, substr_n.
  change (HasPrefix (str "echo " ++ flat_map render_segment segs)
            (str "echo ")) with true.
  cbn [negb]. rewrite take_ge by (rewrite length_drop; lia).
  change (drop 5 (str "echo " ++ flat_map render_segment segs))
    with (flat_map render_segment segs).
  rewrite <- (app_nil_r (flat_map render_segment segs)).
  rewrite description_scan_segments by assumption. reflexivity.
Qed.

(** C6. With the detection of Android's echo lines on, for a command that
    is not itself echoed and that meets an empty buffer with no description
    taken yet: when its translated fragment is [echo ] followed by plain,
    quoted and escaped pieces, the pieces' text, quotes removed and escapes
    kept, becomes the description and the fragment is dropped.  So [echo hi] gives the description [hi] and no
    command text, while [echo $a > b] is kept, with its [$] doubled. *)
Theorem echo_becomes_description :
  (forall fl g name c s segs buf,
     detect_android_echo fl = true -> echo c = false ->
     sh_cmd_buf s = [] -> sh_got_description s = false ->
     forallb segment_ok segs = true ->
     TranslateCommand (skip_spaces (c_str (cmd c)))
       (if (1 <? sh_command_count s) || ignore_error c then str "(" else [])
     = Ok (buf, str "echo " ++ flat_map render_segment segs) ->
     GenShellScript_command fl g name c s
     = Ok (ShellState [] (flat_map segment_text segs) true (sh_use_gomacc s)
                      (sh_command_count s - 1)))
  /\ GenShellScript echo_flags fresh_generator (str "all")
       [command (str "echo hi") false] [] (str "build $out")
     = Ok (false, [], str "hi")
  /\ GenShellScript echo_flags fresh_generator (str "all")
       [command (str "echo $a > b") false] [] (str "build $out")
     = Ok (false, str "echo $$a > b", str "build $out").
Proof.
  split; [|split; vm_compute; reflexivity].
  intros fl g name c s segs buf Hfl Hecho Hbuf Hgot Hsegs Htr.
  unfold GenShellScript_command. rewrite Hbuf, Hfl, Hgot, Hecho.
  cbv zeta. cbn [app length negb andb]. rewrite Htr. cbn [mbind outcome_bind].
  rewrite GetDescriptionFromCommand_echo by assumption.
  reflexivity.
Qed.

Lemma echo_becomes_description_witness :
  GenShellScript_command echo_flags fresh_generator (str "all")
    (command (str "echo 'hi' there\!") false)
    (ShellState [] (str "build $out") false false 1)
  = Ok (ShellState [] (str "hi there\!") true false 0).
Proof.
  apply (proj1 echo_becomes_description echo_flags fresh_generator (str "all")
           (command (str "echo 'hi' there\!") false)
           (ShellState [] (str "build $out") false false 1)
           [Quoted ch_squote (str "hi"); Plain (str " there");
            Escaped "!"%char]
           (str "echo 'hi' there\!"));
    reflexivity.
Defined.

(** Without the detection, or for a command that is echoed, [echo hi]
    stays in the command and the description is the default one. *)
Lemma echo_kept_without_detection :
  GenShellScript plain_flags fresh_generator (str "all")
    [command (str "echo hi") false] [] (str "build $out")
  = Ok (false, str "echo hi", str "build $out")
  /\ GenShellScript echo_flags fresh_generator (str "all")
       [command (str "echo hi") true] [] (str "build $out")
     = Ok (false, str "echo hi", str "build $out").
Proof. split; vm_compute; reflexivity. Qed.

(** * Depfiles *)

Lemma find_after_word (name w tail : text) :
  no_space w = true ->
  find (ch_space :: name) (w ++ tail)
  = (fun i => length w + i) <$> find (ch_space :: name) tail.
Proof.
  intros Hw. induction w as [|c w IH].
  - cbn [app length]. destruct (find (ch_space :: name) tail); reflexivity.
  - cbn [no_space forallb] in Hw. apply andb_true_iff in Hw as [Hc Hw].
    apply negb_true_iff in Hc.
    cbn [app find starts_with].
    replace (Ascii.eqb ch_space c) with false.
    + cbn [andb]. rewrite IH by assumption.
      destruct (find (ch_space :: name) tail); reflexivity.
    + destruct (Ascii.eqb_spec ch_space c) as [<-|]; [discriminate|easy].
Qed.

Lemma FindCommandLineFlag_word (name w tail : text) :
  no_space w = true -> w <> [] ->
  FindCommandLineFlag (w ++ tail) (ch_space :: name)
  = (fun i => length w + i) <$> find (ch_space :: name) tail.
Proof.
  intros Hw Hne. unfold FindCommandLineFlag.
  rewrite find_after_word by assumption.
  destruct (find (ch_space :: name) tail) as [k|];
    cbn [fmap option_fmap option_map]; [|reflexivity].
  destruct w as [|c w]; easy.
Qed.









(** * The traversal *)

(** C1. A node that is reached for the first time and that has no recipe and
    is not phony is marked as visited and nothing else happens: no rule is
    made for it and none of its edges is followed. *)
Theorem leaf_is_marked_and_not_traversed (fl : Flags) (node : DepNode)
  (g : Generator) :
  has_rule node = false -> is_phony node = false ->
  output node ∉ done_ g ->
  PopulateNinjaNode fl node g
  = set_done ({[ output node ]} ∪ done_ g) g.
Proof.
  intros Hr Hp Hd.
  destruct node as [o hr ph dt rs ec ds oo vs io so dv pv lf ll].
  cbn in Hr, Hp, Hd. subst.
  cbn [PopulateNinjaNode output has_rule is_phony].
  rewrite bool_decide_false by assumption. cbn [negb andb].
  destruct (detect_android_echo fl && bool_decide (o = str "out"));
    reflexivity.
Qed.

Lemma leaf_is_marked_and_not_traversed_witness :
  PopulateNinjaNode plain_flags leaf_node fresh_generator
  = set_done ({[ str "gen.h" ]} ∪ ∅) fresh_generator.
Proof.
  apply (leaf_is_marked_and_not_traversed plain_flags leaf_node
           fresh_generator eq_refl eq_refl).
  cbn. apply not_elem_of_empty.
Defined.

(** [tool] has a recipe and is reachable from [top], but only through the
    leaf [gen.h]: it gets no rule and is not even visited. *)
Lemma node_behind_leaf_not_emitted :
  map (fun nn => output (nn_node nn))
      (nodes_ (PopulateNinjaNodes plain_flags [(str "top", top_node)]
                 fresh_generator))
  = [str "top"]
  /\ str "gen.h" ∈ done_ (PopulateNinjaNodes plain_flags
                            [(str "top", top_node)] fresh_generator)
  /\ str "tool" ∉ done_ (PopulateNinjaNodes plain_flags
                           [(str "top", top_node)] fresh_generator).
Proof.
  split; [vm_compute; reflexivity|].
  split.
  - apply (bool_decide_unpack _). vm_compute. exact I.
  - apply (proj1 (bool_decide_eq_false _)). vm_compute. reflexivity.
Qed.

(** * Pools *)






(** * The default target *)

Lemma EmitBuild_default (fl : Flags) (nn : NinjaNode) (rule_name : text)
  (flag : bool) (out : text) (g : Generator) :
  default_target_ (snd (EmitBuild fl nn rule_name flag out g))
  = if is_default_target (nn_node nn) then Some (nn_node nn)
    else default_target_ g.
Proof.
  unfold EmitBuild. cbn [snd].
  destruct (is_default_target (nn_node nn)); reflexivity.
Qed.

Lemma EmitNode_default (ext : Externals) (fl : Flags) (nn : NinjaNode)
  (out out' : text) (g g' : Generator) :
  EmitNode ext fl nn out g = (out', Ok g') ->
  default_target_ g' = emitted_default ext [nn] (default_target_ g).
Proof.
  unfold EmitNode, emitted_default. cbn [fold_left].
  destruct (IsSpecialTarget ext (output (nn_node nn))); cbn [negb andb].
  - intros [= _ <-]. reflexivity.
  - destruct (nn_commands nn) as [|c cs].
    + use_EmitBuild EmitBuild_default. intros [= _ <-]. assumption.
    + destruct (GenShellScript fl g _ (c :: cs) [] _) as [[[flag buf] d]|];
        [|discriminate].
      destruct (GetDepfile fl (nn_node nn) buf []) as [[[has buf'] dep]|];
        [|discriminate].
      use_EmitBuild EmitBuild_default. intros [= _ <-]. assumption.
Qed.

Lemma EmitNodes_default (ext : Externals) (fl : Flags)
  (nodes : list NinjaNode) (out out' : text) (g g' : Generator) :
  EmitNodes ext fl nodes out g = (out', Ok g') ->
  default_target_ g' = emitted_default ext nodes (default_target_ g).
Proof.
  revert out g. induction nodes as [|nn nodes IH]; intros out g.
  - intros [= _ <-]. reflexivity.
  - cbn [EmitNodes].
    destruct (EmitNode ext fl nn out g) as [o [g1|f]] eqn:E; [|discriminate].
    intros H. apply IH in H. rewrite H.
    apply EmitNode_default in E. rewrite E. reflexivity.
Qed.

Lemma record_used_envs_default (ext : Externals) (g : Generator) :
  default_target_ (record_used_envs ext g) = default_target_ g.
Proof. reflexivity. Qed.

(** C7. When the making of the ninja file succeeds: if the run names no
    targets, or asks for all targets, the goal of the [default] line is the
    node left in [default_target_], the last emitted node flagged as default
    target; otherwise the goals are the named targets.  When the run names
    no targets or asks for all targets and no such node was emitted, the
    making fails. *)
Theorem default_goal (ext : Externals) (fl : Flags) (g : Generator) :
  let emitted :=
    emitted_default ext
      (if generate_empty_ninja fl then [] else nodes_ g)
      (default_target_ g) in
  (forall out g',
     GenerateNinja ext fl g = (out, Ok g') ->
     exists body goals,
       out = body ++ (if generate_empty_ninja fl then []
                      else [ch_nl] ++ str "default " ++ goals ++ [ch_nl])
       /\ if bool_decide (targets fl = []) || gen_all_targets fl
          then exists node, emitted = Some node
                            /\ goals = EscapeBuildTarget (output node)
          else goals = join_targets (targets fl))
  /\ (bool_decide (targets fl = []) || gen_all_targets fl = true ->
      emitted = None ->
      exists f, snd (GenerateNinja ext fl g) = Abort f).
Proof.
  cbv zeta. unfold GenerateNinja.
  set (pre := GenerateNinja_prelude ext fl g).
  assert (E : exists o r,
             (if negb (generate_empty_ninja fl)
              then EmitNodes ext fl (nodes_ g) pre g else (pre, Ok g))
             = (o, r)
             /\ forall g1, r = Ok g1 ->
                  default_target_ g1
                  = emitted_default ext
                      (if generate_empty_ninja fl then [] else nodes_ g)
                      (default_target_ g)).
  { destruct (generate_empty_ninja fl); cbn [negb].
    - exists pre, (Ok g). split; [reflexivity|]. now intros g1 [= <-].
    - destruct (EmitNodes ext fl (nodes_ g) pre g) as [o r] eqn:E.
      exists o, r. split; [reflexivity|]. intros g1 ->.
      eapply EmitNodes_default, E. }
  destruct E as (o & r & -> & D). split.
  - intros out g'. destruct r as [g1|f]; [|discriminate].
    specialize (D g1 eq_refl). unfold default_targets_of.
    rewrite record_used_envs_default, D.
    destruct (bool_decide (targets fl = []) || gen_all_targets fl).
    + destruct (emitted_default ext _ (default_target_ g)) as [node|];
        [|discriminate].
      intros [= <- _]. exists o, (EscapeBuildTarget (output node)).
      split; [destruct (generate_empty_ninja fl); cbn [negb];
              [now rewrite app_nil_r|reflexivity]|].
      eauto.
    + intros [= <- _]. exists o, (join_targets (targets fl)).
      split; [destruct (generate_empty_ninja fl); cbn [negb];
              [now rewrite app_nil_r|reflexivity]|].
      reflexivity.
  - intros Ht Hn. destruct r as [g1|f]; [|eauto].
    specialize (D g1 eq_refl). unfold default_targets_of.
    rewrite record_used_envs_default, D, Ht, Hn. eauto.
Qed.

Lemma default_goal_witness :
  (exists body goals,
     fst (GenerateNinja sample_externals plain_flags
            (all_generator plain_flags))
     = body ++ [ch_nl] ++ str "default " ++ goals ++ [ch_nl]
     /\ exists node,
          emitted_default sample_externals
            (nodes_ (all_generator plain_flags)) None = Some node
          /\ goals = EscapeBuildTarget (output node))
  /\ exists f,
       snd (GenerateNinja sample_externals plain_flags fresh_generator)
       = Abort f.
Proof.
  split.
  - apply (proj1 (default_goal sample_externals plain_flags
                    (all_generator plain_flags))
             (fst (GenerateNinja sample_externals plain_flags
                     (all_generator plain_flags)))
             (record_used_envs sample_externals
                (set_default_target (Some all_node)
                   (all_generator plain_flags)))).
    vm_compute. reflexivity.
  - apply (proj2 (default_goal sample_externals plain_flags
                    fresh_generator)); reflexivity.
Defined.

(** The run names the target [foo] and asks for all targets: the goal is
    the flagged node [all], not [foo]. *)
Lemma named_target_is_not_the_goal :
  targets gen_all_flags = [str "foo"]
  /\ fst (GenerateNinja sample_externals gen_all_flags
            (all_generator gen_all_flags))
     = unlines ["# Generated by kati unknown"; "";
                "pool local_pool"; " depth = 1"; "";
                "build _kati_always_build_: phony"; "";
                "build all: phony _kati_always_build_"; "";
                "default all"]
  /\ default_targets_of gen_all_flags
       (set_default_target (Some all_node) fresh_generator)
     = Ok (str "all").
Proof. repeat split; vm_compute; reflexivity. Qed.

(** * The stamp *)

Lemma fs_run_app (a b : list fs_op) (fs : gmap text text) :
  fs_run (a ++ b) fs = fs_run b (fs_run a fs).
Proof. apply fold_left_app. Qed.

Lemma fs_step_avoids (q : text) (op : fs_op) (fs : gmap text text) :
  avoids q op -> fs_step fs op !! q = fs !! q.
Proof.
  destruct op as [p|p|p c|a b|p]; cbn [avoids fs_step]; intros H.
  - now rewrite lookup_delete_ne.
  - now rewrite lookup_insert_ne.
  - now rewrite lookup_alter_ne.
  - destruct H as [Ha Hb]. destruct (fs !! a); [|reflexivity].
    now rewrite lookup_insert_ne, lookup_delete_ne.
  - reflexivity.
Qed.

Lemma fs_run_avoids (q : text) (ops : list fs_op) (fs : gmap text text) :
  Forall (avoids q) ops -> fs_run ops fs !! q = fs !! q.
Proof.
  revert fs. induction ops as [|op ops IH]; intros fs H; [reflexivity|].
  inversion H as [|? ? Hop Hops]; subst. cbn [fs_run fold_left].
  change (fs_run ops (fs_step fs op) !! q = fs !! q).
  rewrite IH by assumption. now apply fs_step_avoids.
Qed.

Lemma write_file_avoids (p q content : text) :
  p <> q -> Forall (avoids q) (write_file p content).
Proof.
  intros H. unfold write_file. constructor; [exact H|].
  apply Forall_map, Forall_true. intros c. exact H.
Qed.

Lemma fs_run_writes (p content : text) (fs : gmap text text) (s : text) :
  fs !! p = Some s ->
  fs_run (map (Write p) content) fs !! p = Some (s ++ content).
Proof.
  revert fs s. induction content as [|c content IH]; intros fs s H.
  - cbn. now rewrite app_nil_r.
  - cbn [map fs_run fold_left].
    change (fs_run (map (Write p) content) (fs_step fs (Write p c)) !! p
            = Some (s ++ c :: content)).
    rewrite (IH _ (s ++ [c])).
    + now rewrite <- app_assoc.
    + cbn [fs_step]. rewrite lookup_alter_eq, H. reflexivity.
Qed.

Lemma fs_run_write_file (p content : text) (fs : gmap text text) :
  fs_run (write_file p content) fs !! p = Some content.
Proof.
  unfold write_file. cbn [fs_run fold_left].
  change (fs_run (map (Write p) content) (fs_step fs (Open p)) !! p
          = Some content).
  rewrite (fs_run_writes p content _ []); [reflexivity|].
  cbn [fs_step]. apply lookup_insert_eq.
Qed.

Lemma GetFilename_differ (fl : Flags) (a b a' b' : text) :
  (forall s, a ++ s ++ b <> a' ++ s ++ b') ->
  GetFilename fl a b <> GetFilename fl a' b'.
Proof.
  intros H E. unfold GetFilename in E.
  apply app_inv_head in E. apply app_inv_head in E. exact (H _ E).
Qed.

Lemma stamp_is_not_temp (fl : Flags) :
  GetStampTempFilename fl <> GetNinjaStampFilename fl.
Proof.
  apply GetFilename_differ. intros s E.
  apply app_inv_head in E. apply app_inv_head in E. discriminate E.
Qed.

Lemma stamp_is_not_ninja (fl : Flags) :
  GetNinjaFilename fl <> GetNinjaStampFilename fl.
Proof. apply GetFilename_differ. intros s E. discriminate E. Qed.

Lemma stamp_is_not_env (fl : Flags) :
  GetEnvScriptFilename fl <> GetNinjaStampFilename fl.
Proof. apply GetFilename_differ. intros s E. discriminate E. Qed.

Lemma stamp_is_not_script (fl : Flags) :
  GetNinjaShellScriptFilename fl <> GetNinjaStampFilename fl.
Proof. apply GetFilename_differ. intros s E. discriminate E. Qed.

Lemma GenerateShell_avoids (ext : Externals) (fl : Flags) :
  Forall (avoids (GetNinjaStampFilename fl)) (GenerateShell ext fl).
Proof.
  unfold GenerateShell. rewrite !Forall_app. repeat split.
  - apply write_file_avoids, stamp_is_not_env.
  - apply write_file_avoids, stamp_is_not_script.
  - constructor; [exact I|constructor].
Qed.

(** The steps of a run after the first one and before the last one. *)
Lemma Generate_shape (ext : Externals) (fl : Flags) (g : Generator)
  (nodes : list (text * DepNode)) (orig_args : text) :
  exists middle,
    Forall (avoids (GetNinjaStampFilename fl)) middle
    /\ match generator_at_stamp ext fl g nodes with
       | Ok g' =>
           Generate ext fl g nodes orig_args
           = Unlink (GetNinjaStampFilename fl)
             :: (middle
                 ++ write_file (GetStampTempFilename fl)
                      (stamp_bytes ext g' orig_args))
             ++ [Rename (GetStampTempFilename fl) (GetNinjaStampFilename fl)]
       | Abort _ =>
           Generate ext fl g nodes orig_args
           = Unlink (GetNinjaStampFilename fl) :: middle
       end.
Proof.
  unfold Generate, generator_at_stamp.
  destruct (GenerateNinja ext fl (PopulateNinjaNodes fl nodes g))
    as [ninja_text [g'|f]]; cbn [snd].
  - exists (write_file (GetNinjaFilename fl) ninja_text
            ++ GenerateShell ext fl).
    split.
    + apply Forall_app. split;
        [apply write_file_avoids, stamp_is_not_ninja
        |apply GenerateShell_avoids].
    + unfold GenerateStamp. cbn [app]. now rewrite <- !app_assoc.
  - exists (write_file (GetNinjaFilename fl) ninja_text). split.
    + apply write_file_avoids, stamp_is_not_ninja.
    + cbn [app]. now rewrite app_nil_r.
Qed.

(** C4. After any number of steps of a run, but at least one, the stamp
    file does not exist, or all steps were made and it holds the complete
    new stamp; and a run in which nothing fails ends with the complete new
    stamp in place.  The first step of a run removes the stamp of the run
    before. *)
Theorem stamp_absent_or_complete (ext : Externals) (fl : Flags)
  (g : Generator) (nodes : list (text * DepNode)) (orig_args : text)
  (fs : gmap text text) :
  let trace := Generate ext fl g nodes orig_args in
  let stamp := GetNinjaStampFilename fl in
  (forall n, 0 < n ->
     fs_run (take n trace) fs !! stamp = None
     \/ (length trace <= n
         /\ exists g', generator_at_stamp ext fl g nodes = Ok g'
                       /\ fs_run (take n trace) fs !! stamp
                          = Some (stamp_bytes ext g' orig_args)))
  /\ (forall g', generator_at_stamp ext fl g nodes = Ok g' ->
        fs_run trace fs !! stamp = Some (stamp_bytes ext g' orig_args)).
Proof.
  cbv zeta.
  destruct (Generate_shape ext fl g nodes orig_args) as (middle & Hm & Hs).
  set (stamp := GetNinjaStampFilename fl) in *.
  set (tmp := GetStampTempFilename fl) in *.
  assert (Hfull : forall g',
            fs_run (Unlink stamp
                    :: (middle ++ write_file tmp (stamp_bytes ext g' orig_args))
                    ++ [Rename tmp stamp]) fs !! stamp
            = Some (stamp_bytes ext g' orig_args)).
  { intros g'.
    change (fs_run ((middle ++ write_file tmp (stamp_bytes ext g' orig_args))
                    ++ [Rename tmp stamp]) (fs_step fs (Unlink stamp))
              !! stamp = Some (stamp_bytes ext g' orig_args)).
    rewrite !fs_run_app. cbn [fs_run fold_left fs_step].
    rewrite fs_run_write_file. apply lookup_insert_eq. }
  destruct (generator_at_stamp ext fl g nodes) as [g'|f]; rewrite Hs.
  - split; [|intros ? [= <-]; apply Hfull].
    intros [|n] Hn; [lia|]. cbn [take].
    set (before := middle ++ write_file tmp (stamp_bytes ext g' orig_args)).
    destruct (decide (n <= length before)) as [Hle|Hgt].
    + left. rewrite take_app_le by assumption.
      change (fs_run (take n before) (fs_step fs (Unlink stamp)) !! stamp
              = None).
      rewrite fs_run_avoids.
      * cbn [fs_step]. apply lookup_delete_eq.
      * apply Forall_take, Forall_app. split; [assumption|].
        apply write_file_avoids, stamp_is_not_temp.
    + right. split.
      * cbn [length]. rewrite length_app. cbn [length]. lia.
      * exists g'. split; [reflexivity|].
        rewrite take_ge by (rewrite length_app; cbn [length]; lia).
        apply Hfull.
  - split; [|discriminate].
    intros [|n] Hn; [lia|]. left. cbn [take].
    change (fs_run (take n middle) (fs_step fs (Unlink stamp)) !! stamp
            = None).
    rewrite fs_run_avoids by (apply Forall_take; assumption).
    cbn [fs_step]. apply lookup_delete_eq.
Qed.

Lemma stamp_absent_or_complete_witness :
  (fs_run (take 1 (Generate sample_externals plain_flags fresh_generator
                     [(str "all", all_node)] (str "ckati --ninja")))
     earlier_fs !! GetNinjaStampFilename plain_flags = None
   \/ (length (Generate sample_externals plain_flags fresh_generator
                 [(str "all", all_node)] (str "ckati --ninja")) <= 1
       /\ exists g',
            generator_at_stamp sample_externals plain_flags fresh_generator
              [(str "all", all_node)] = Ok g'
            /\ fs_run (take 1 (Generate sample_externals plain_flags
                                 fresh_generator [(str "all", all_node)]
                                 (str "ckati --ninja")))
                 earlier_fs !! GetNinjaStampFilename plain_flags
               = Some (stamp_bytes sample_externals g'
                         (str "ckati --ninja"))))
  /\ fs_run (Generate sample_externals plain_flags fresh_generator
               [(str "all", all_node)] (str "ckati --ninja"))
       earlier_fs !! GetNinjaStampFilename plain_flags
     = Some (stamp_bytes sample_externals
               (record_used_envs sample_externals
                  (set_default_target (Some all_node)
                     (all_generator plain_flags)))
               (str "ckati --ninja")).
Proof.
  split.
  - apply (proj1 (stamp_absent_or_complete sample_externals plain_flags
                    fresh_generator [(str "all", all_node)]
                    (str "ckati --ninja") earlier_fs) 1).
    lia.
  - apply (proj2 (stamp_absent_or_complete sample_externals plain_flags
                    fresh_generator [(str "all", all_node)]
                    (str "ckati --ninja") earlier_fs)).
    vm_compute. reflexivity.
Defined.

(** The stamp of the run before is there when a run starts, and after the
    first step of the run the stamp file is gone, long before the new stamp
    is written. *)
Lemma earlier_stamp_removed_first :
  earlier_fs !! GetNinjaStampFilename plain_flags
    = Some (str "stamp of the run before")
  /\ fs_run (take 1 (Generate sample_externals plain_flags fresh_generator
                       [(str "all", all_node)] (str "ckati --ninja")))
       earlier_fs !! GetNinjaStampFilename plain_flags = None
  /\ 1 < length (Generate sample_externals plain_flags fresh_generator
                   [(str "all", all_node)] (str "ckati --ninja")).
Proof.
  split; [apply lookup_singleton_eq|]. split.
  - replace (take 1 (Generate sample_externals plain_flags fresh_generator
                       [(str "all", all_node)] (str "ckati --ninja")))
      with [Unlink (GetNinjaStampFilename plain_flags)]
      by (vm_compute; reflexivity).
    cbn [fs_run fold_left fs_step]. apply lookup_delete_eq.
  - apply Nat.ltb_lt. vm_compute. reflexivity.
Qed.

(** * The bounded loops have fuel enough *)

Lemma find_bound (needle hay : text) (i : nat) :
  find needle hay = Some i -> i + length needle <= length hay.
Proof.
  revert i. induction hay as [|c hay IH]; intros i; cbn [find].
  - destruct (starts_with needle []) eqn:E; [|discriminate].
    intros [= <-]. apply starts_with_length in E. exact E.
  - destruct (starts_with needle (c :: hay)) eqn:E.
    + intros [= <-]. apply starts_with_length in E. exact E.
    + destruct (find needle hay) as [j|]; [|discriminate].
      intros [= <-]. specialize (IH j eq_refl). cbn [length]. lia.
Qed.

Lemma TrimLeftSpace_length (s : text) :
  length (TrimLeftSpace s) <= length s.
Proof.
  induction s as [|c s IH]; cbn [TrimLeftSpace length]; [lia|].
  destruct (isspace c); cbn [length]; lia.
Qed.

(** More fuel than the text is long does not change the result of the loop
    of [FindCommandLineFlagWithArg], for a flag that is not empty. *)
Lemma last_flag_arg_fuel (name : text) (fuel fuel' : nat) (val : text) :
  name <> [] -> length val < fuel -> length val < fuel' ->
  last_flag_arg fuel name val = last_flag_arg fuel' name val.
Proof.
  intros Hname. revert fuel' val.
  induction fuel as [|fuel IH]; intros fuel' val H H'; [lia|].
  destruct fuel' as [|fuel']; [lia|]. cbn [last_flag_arg].
  destruct (find name val) as [index|] eqn:E; [|reflexivity].
  apply find_bound in E.
  assert (0 < length name) by (destruct name; [easy|cbn; lia]).
  pose proof (TrimLeftSpace_length (substr (index + length name) val)) as L.
  unfold substr in *. rewrite length_drop in L.
  apply IH; lia.
Qed.

(** The same for the search of the compiler after [ccache] words. *)
Lemma gomacc_pos_fuel (fuel fuel' : nat) (cmdline : text) :
  length cmdline < fuel -> length cmdline < fuel' ->
  gomacc_pos fuel cmdline = gomacc_pos fuel' cmdline.
Proof.
  revert fuel' cmdline.
  induction fuel as [|fuel IH]; intros fuel' cmdline H H'; [lia|].
  destruct fuel' as [|fuel']; [lia|]. cbn [gomacc_pos].
  destruct (find [ch_space] cmdline) as [index|] eqn:E; [|reflexivity].
  apply find_bound in E. cbn [length] in E.
  destruct (HasSuffix (substr_n 0 index cmdline) (str "ccache"));
    [|reflexivity].
  rewrite (IH fuel' (substr (S index) cmdline)); [reflexivity| |];
    unfold substr; rewrite length_drop; lia.
Qed.

(** * TranslateCommand: what the loop keeps *)

Lemma scan_inv_grown (orig : text) (st : scan_state) :
  scan_inv orig st -> scan_grown orig st.
Proof. intros (app & H1 & H2 & _). exists app. easy. Qed.

Lemma scan_grown_inv (orig : text) (st : scan_state) :
  scan_grown orig st -> sc_prev_backslash st = false -> scan_inv orig st.
Proof.
  intros (app & H1 & H2) Hpb. exists app.
  split; [assumption|]. split; [assumption|].
  intros H. rewrite Hpb in H. discriminate H.
Qed.

Lemma scan_inv_append (orig : text) (st : scan_state) (x : text) (c : ascii) :
  scan_inv orig st -> Forall (fun c => c <> ch_nl) x ->
  c <> ch_bslash ->
  scan_inv orig (after_char c (set_buf (sc_buf st ++ x) st)).
Proof.
  intros (app & H1 & H2 & _) Hx Hc. exists (app ++ x).
  cbn [after_char set_buf sc_buf sc_prev_backslash sc_prev_char].
  rewrite H1, <- app_assoc. repeat split; [now apply Forall_app| |];
    destruct (Ascii.eqb_spec c ch_bslash); easy.
Qed.

Lemma scan_inv_step (orig : text) (c : ascii) (st : scan_state) :
  scan_inv orig st ->
  exists st', switch_char c st = Ok st' /\ scan_inv orig (after_char c st').
Proof.
  intros Hinv. unfold switch_char.
  destruct (Ascii.eqb_spec c ch_hash) as [->|Hh].
  { eexists. split; [reflexivity|].
    apply scan_inv_append; [assumption| |discriminate].
    repeat constructor. discriminate. }
  destruct (is_quote_char c) eqn:Hq.
  { eexists. split; [reflexivity|].
    destruct Hinv as (app & H1 & H2 & _). exists (app ++ [c]).
    cbn [after_char sc_buf sc_prev_backslash sc_prev_char].
    pose proof (quote_char_not_special c Hq) as [_ Hb].
    rewrite H1, <- app_assoc, Hb. repeat split; [|discriminate..].
    apply Forall_app. split; [assumption|]. repeat constructor.
    intros ->. discriminate Hq. }
  destruct (Ascii.eqb_spec c ch_dollar) as [->|Hd].
  { eexists. split; [reflexivity|].
    apply scan_inv_append; [assumption| |discriminate].
    repeat constructor; discriminate. }
  destruct (Ascii.eqb_spec c ch_nl) as [->|Hn].
  { destruct (sc_prev_backslash st) eqn:Hpb.
    - destruct Hinv as (app & H1 & H2 & H3).
      destruct (H3 Hpb) as (_ & app' & ->).
      rewrite H1, app_assoc, resize_minus_one_snoc.
      eexists. split; [reflexivity|]. exists app'.
      cbn [after_char set_buf sc_buf sc_prev_backslash sc_prev_char].
      apply Forall_app in H2 as [H2 _].
      repeat split; [assumption|discriminate..].
    - eexists. split; [reflexivity|].
      apply scan_inv_append; [assumption| |discriminate].
      repeat constructor. discriminate. }
  eexists. split; [reflexivity|].
  destruct Hinv as (app & H1 & H2 & H3). exists (app ++ [c]).
  cbn [after_char set_buf sc_buf sc_prev_backslash sc_prev_char].
  rewrite H1, <- app_assoc. split; [reflexivity|]. split.
  - apply Forall_app. split; [assumption|]. now repeat constructor.
  - destruct (Ascii.eqb_spec c ch_bslash) as [->|]; [|discriminate].
    intros _. split; [reflexivity|]. now exists app.
Qed.

Lemma comment_start_no_backslash (orig : text) (c : ascii) (st : scan_state) :
  scan_inv orig st -> comment_start c st = true ->
  sc_prev_backslash st = false.
Proof.
  intros (app & _ & _ & H) Hc. destruct (sc_prev_backslash st); [|reflexivity].
  destruct (H eq_refl) as [Hp _]. unfold comment_start in Hc.
  rewrite Hp in Hc. apply andb_true_iff in Hc as [_ Hc]. discriminate Hc.
Qed.

Lemma scan_keeps (orig : text) (input : text) :
  forall (skipping : bool) (st : scan_state),
    (if skipping then scan_grown orig st /\ sc_prev_backslash st = false
     else scan_inv orig st) ->
    exists st', scan skipping input st = Ok st' /\ scan_grown orig st'.
Proof.
  induction input as [|c rest IH]; intros skipping st H.
  - exists st. split; [reflexivity|].
    destruct skipping; [apply H|now apply scan_inv_grown].
  - cbn [scan].
    assert (Hskip : skipping || comment_start c st = true ->
                    scan_grown orig st /\ sc_prev_backslash st = false).
    { destruct skipping; [intros _; exact H|]. cbn [orb]. intros Hc.
      split; [now apply scan_inv_grown|].
      eapply comment_start_no_backslash; eassumption. }
    destruct (skipping || comment_start c st) eqn:E.
    + destruct (Hskip eq_refl) as [Hg Hpb].
      assert (Hafter : scan_grown orig (after_char c st)).
      { destruct Hg as (app & H1 & H2). now exists app. }
      destruct rest as [|c' rest'].
      * exists (after_char c st). split; [reflexivity|assumption].
      * destruct (Ascii.eqb_spec c ch_nl) as [->|Hn].
        -- apply (IH false). apply scan_grown_inv; [assumption|reflexivity].
        -- apply (IH true). split; assumption.
    + apply orb_false_iff in E as [-> Ec].
      destruct (scan_inv_step orig c st H) as (st' & -> & Hinv).
      cbn [mbind outcome_bind]. apply (IH false). exact Hinv.
Qed.

Lemma scan_init_inv (buf : text) : scan_inv buf (scan_init buf).
Proof.
  exists []. cbn. rewrite app_nil_r. repeat split; [constructor|discriminate..].
Qed.

(** X1. The loop of [TranslateCommand] never fails: when it shrinks the buffer
    inside the loop, the buffer ends in the backslash it has just added. *)
Theorem scan_never_fails (input buf : text) :
  exists st, scan false input (scan_init buf) = Ok st
             /\ exists app, sc_buf st = buf ++ app.
Proof.
  destruct (scan_keeps buf input false (scan_init buf) (scan_init_inv buf))
    as (st & H & app & Happ & _).
  eauto.
Qed.

Lemma strip_tail_rev_suffix (r r' : text) :
  strip_tail_rev r = Ok r' -> exists pre, r = pre ++ r'.
Proof.
  induction r as [|c r IH]; cbn [strip_tail_rev]; [discriminate|].
  destruct (negb (isspace c) && negb (Ascii.eqb c ch_semi)).
  - intros [= <-]. now exists [].
  - intros H. destruct (IH H) as (pre & ->). now exists (c :: pre).
Qed.

Lemma strip_tail_prefix (b r : text) :
  strip_tail b = Ok r -> exists x, b = r ++ x.
Proof.
  unfold strip_tail. destruct (strip_tail_rev (rev b)) as [r0|] eqn:E;
    cbn [mbind outcome_bind]; [|discriminate].
  intros [= <-]. destruct (strip_tail_rev_suffix _ _ E) as (pre & H).
  exists (rev pre). rewrite <- rev_app_distr, <- H. now rewrite rev_involutive.
Qed.

Lemma resize_minus_one_prefix (b r : text) :
  resize_minus_one b = Ok r -> exists x, b = r ++ x.
Proof.
  destruct b as [|c b]; [discriminate|].
  destruct (exists_last (l := c :: b)) as (l' & a & E); [discriminate|].
  rewrite E. rewrite resize_minus_one_snoc. intros [= <-]. now exists [a].
Qed.

Lemma prefix_split (orig app r x : text) :
  orig ++ app = r ++ x -> length orig <= length r ->
  exists t, r = orig ++ t /\ exists y, app = t ++ y.
Proof.
  revert r. induction orig as [|c orig IH]; intros r H L.
  - exists r. split; [reflexivity|]. now exists x.
  - destruct r as [|c' r]; [cbn in L; lia|]. cbn in H, L.
    injection H as -> H. destruct (IH r H) as (t & -> & y & ->); [lia|].
    exists t. split; [reflexivity|]. now exists y.
Qed.

Lemma TranslateCommand_shape (input buf buf' t : text) :
  TranslateCommand input buf = Ok (buf', t) ->
  buf' = make_to_ninja buf ++ t /\ Forall (fun c => c <> ch_nl) t.
Proof.
  unfold TranslateCommand.
  destruct (scan_keeps (make_to_ninja buf) input false _
              (scan_init_inv (make_to_ninja buf)))
    as (st & -> & app & Happ & Hnl).
  cbn [mbind outcome_bind].
  destruct (if sc_prev_backslash st then resize_minus_one (sc_buf st)
            else Ok (sc_buf st)) as [b1|] eqn:E1;
    cbn [mbind outcome_bind]; [|discriminate].
  assert (P1 : exists x, sc_buf st = b1 ++ x).
  { destruct (sc_prev_backslash st).
    - now apply resize_minus_one_prefix.
    - injection E1 as <-. exists []. now rewrite app_nil_r. }
  destruct (strip_tail b1) as [b2|] eqn:E2; cbn [mbind outcome_bind];
    [|discriminate].
  destruct (strip_tail_prefix _ _ E2) as (x2 & ->).
  destruct P1 as (x1 & P1).
  destruct (length (make_to_ninja buf) <=? length b2) eqn:L; [|discriminate].
  apply Nat.leb_le in L. intros [= <- <-].
  rewrite Happ, <- app_assoc in P1.
  destruct (prefix_split _ _ _ _ P1 L) as (t & -> & y & ->).
  rewrite drop_app_length. split; [reflexivity|].
  now apply Forall_app in Hnl as [Hnl _].
Qed.

(** X2. A translation only adds to the buffer: the new buffer is the old one,
    with [make ] replaced if it began with it, followed by the returned piece.
    *)
Theorem TranslateCommand_appends (input buf buf' t : text) :
  TranslateCommand input buf = Ok (buf', t) ->
  buf' = make_to_ninja buf ++ t.
Proof. intros H. now apply TranslateCommand_shape in H. Qed.

Lemma TranslateCommand_appends_witness :
  str "(cc -c a.c" = make_to_ninja (str "(") ++ str "cc -c a.c".
Proof.
  apply (TranslateCommand_appends (str "cc -c a.c ;") (str "(")).
  reflexivity.
Defined.

(** X3. The returned piece holds no newline, whatever the input: the command
    of a rule stays on one line. *)
Theorem TranslateCommand_no_newline (input buf buf' t : text) :
  TranslateCommand input buf = Ok (buf', t) ->
  Forall (fun c => c <> ch_nl) t.
Proof. intros H. now apply TranslateCommand_shape in H. Qed.

Lemma TranslateCommand_no_newline_witness :
  Forall (fun c => c <> ch_nl) (str "a b c").
Proof.
  apply (TranslateCommand_no_newline
           (str "a" ++ [ch_nl] ++ str "b \" ++ [ch_nl] ++ str "c") []
           (str "a b c")).
  reflexivity.
Defined.

(** * TranslateCommand: literal text, comments and quotes *)

Lemma literal_char_facts (c : ascii) :
  literal_char c = true ->
  Ascii.eqb c ch_hash = false /\ is_quote_char c = false
  /\ Ascii.eqb c ch_nl = false /\ Ascii.eqb c ch_bslash = false.
Proof.
  unfold literal_char. intros H.
  repeat (apply andb_true_iff in H as [H ?]).
  repeat match goal with
         | H : negb ?b = true |- _ => apply negb_true_iff in H
         end.
  easy.
Qed.

Lemma scan_literal (w rest buf : text) (pc q : ascii) :
  forallb literal_char w = true ->
  scan false (w ++ rest) (ScanState buf false pc q)
  = scan false rest
      (ScanState (buf ++ dollars_doubled w) false (List.last w pc) q).
Proof.
  revert buf pc. induction w as [|c w IH]; intros buf pc Hw.
  - cbn [app List.last dollars_doubled flat_map]. now rewrite app_nil_r.
  - cbn [forallb] in Hw. apply andb_true_iff in Hw as [Hc Hw].
    destruct (literal_char_facts c Hc) as (Hh & Hq & Hn & Hb).
    cbn [app scan orb]. unfold comment_start, switch_char.
    rewrite Hh, Hq, Hn. cbn [andb].
    assert (E : (if Ascii.eqb c ch_dollar
                 then Ok (set_buf (buf ++ str "$$") (ScanState buf false pc q))
                 else Ok (set_buf (buf ++ [c]) (ScanState buf false pc q)))
                = Ok (set_buf (buf ++ double_dollar c)
                        (ScanState buf false pc q))).
    { unfold double_dollar. now destruct (Ascii.eqb c ch_dollar). }
    cbn [sc_buf]. rewrite E. cbn [mbind outcome_bind].
    unfold after_char. rewrite Hb. cbn [set_buf sc_buf sc_quote].
    rewrite IH by assumption.
    cbn [dollars_doubled flat_map]. rewrite <- app_assoc.
    destruct w as [|x w]; [reflexivity|].
    rewrite (last_default w x c pc). reflexivity.
Qed.

Lemma scan_literal_end (w buf : text) (pc q : ascii) :
  forallb literal_char w = true ->
  scan false w (ScanState buf false pc q)
  = Ok (ScanState (buf ++ dollars_doubled w) false (List.last w pc) q).
Proof.
  intros Hw. pose proof (scan_literal w [] buf pc q Hw) as E.
  rewrite app_nil_r in E. exact E.
Qed.

Lemma strip_tail_kept (x : text) (c : ascii) :
  isspace c = false -> Ascii.eqb c ch_semi = false ->
  strip_tail (x ++ [c]) = Ok (x ++ [c]).
Proof.
  intros Hs Hc. unfold strip_tail. rewrite rev_unit. cbn [strip_tail_rev].
  rewrite Hs, Hc. cbn. now rewrite rev_involutive.
Qed.

Lemma strip_tail_dropped (x : text) (c : ascii) :
  isspace c || Ascii.eqb c ch_semi = true ->
  strip_tail (x ++ [c]) = strip_tail x.
Proof.
  intros H. unfold strip_tail at 1. rewrite rev_unit. cbn [strip_tail_rev].
  destruct (isspace c), (Ascii.eqb c ch_semi); try discriminate H;
    reflexivity.
Qed.

Lemma keeps_tail_last (t : text) :
  keeps_tail t = true ->
  exists t' c, t = t' ++ [c] /\ isspace c = false
               /\ Ascii.eqb c ch_semi = false.
Proof.
  unfold keeps_tail. destruct (rev t) as [|c r] eqn:E; [discriminate|].
  intros H. apply andb_true_iff in H as [H1 H2].
  apply negb_true_iff in H1, H2. exists (rev r), c.
  split; [|easy]. rewrite <- (rev_involutive t), E. reflexivity.
Qed.

Lemma dollars_doubled_app (a b : text) :
  dollars_doubled (a ++ b) = dollars_doubled a ++ dollars_doubled b.
Proof. apply flat_map_app. Qed.

Lemma keeps_tail_doubled (t : text) :
  keeps_tail t = true -> keeps_tail (dollars_doubled t) = true.
Proof.
  intros H. destruct (keeps_tail_last t H) as (t' & c & -> & Hs & Hc).
  rewrite dollars_doubled_app. unfold keeps_tail.
  cbn [dollars_doubled flat_map]. rewrite app_nil_r, rev_app_distr.
  unfold double_dollar. destruct (Ascii.eqb c ch_dollar); cbn [rev app].
  - reflexivity.
  - now rewrite Hs, Hc.
Qed.

Lemma keeps_tail_app (a b : text) :
  keeps_tail b = true -> keeps_tail (a ++ b) = true.
Proof.
  intros H. destruct (keeps_tail_last b H) as (t' & c & -> & Hs & Hc).
  unfold keeps_tail. rewrite app_assoc, rev_unit. now rewrite Hs, Hc.
Qed.

Lemma strip_tail_keeps (x t : text) :
  keeps_tail t = true -> strip_tail (x ++ t) = Ok (x ++ t).
Proof.
  intros H. destruct (keeps_tail_last t H) as (t' & c & -> & Hs & Hc).
  rewrite app_assoc. now apply strip_tail_kept.
Qed.

(** The end of [TranslateCommand] when the scan has only added [t] and [t]
    ends well. *)
Lemma translate_finish (orig t : text) :
  keeps_tail t = true ->
  (buf ← strip_tail (orig ++ t);
   if length orig <=? length buf then Ok (buf, drop (length orig) buf)
   else Abort OutOfRange)
  = Ok (orig ++ t, t).
Proof.
  intros H. rewrite strip_tail_keeps by assumption. cbn [mbind outcome_bind].
  destruct (translate_tail orig t) as [-> ->]. reflexivity.
Qed.

Lemma TranslateCommand_literal (t buf : text) :
  forallb literal_char t = true -> keeps_tail t = true ->
  TranslateCommand t buf
  = Ok (make_to_ninja buf ++ dollars_doubled t, dollars_doubled t).
Proof.
  intros Ht Hk. unfold TranslateCommand, scan_init.
  rewrite scan_literal_end by assumption.
  cbn [mbind outcome_bind sc_prev_backslash sc_buf].
  apply translate_finish. now apply keeps_tail_doubled.
Qed.

(** X4. A command without [#], quotes, newlines and backslashes that does not
    end in white space or [;] is copied to the buffer with every [$] doubled,
    and with nothing else changed. *)
Theorem translate_literal (t buf : text) :
  forallb literal_char t = true -> keeps_tail t = true ->
  TranslateCommand t buf
  = Ok (make_to_ninja buf ++ dollars_doubled t, dollars_doubled t).
Proof. apply TranslateCommand_literal. Qed.

Lemma translate_literal_witness :
  TranslateCommand (str "cp $< $@ && chmod +x $@") []
  = Ok (str "cp $$< $$@ && chmod +x $$@", str "cp $$< $$@ && chmod +x $$@").
Proof.
  apply (translate_literal (str "cp $< $@ && chmod +x $@") []); reflexivity.
Defined.

Lemma scan_cons (skipping : bool) (c : ascii) (rest : text)
  (st : scan_state) :
  scan skipping (c :: rest) st
  = if skipping || comment_start c st then
      match rest with
      | _ :: _ =>
          if Ascii.eqb c ch_nl then scan false rest (after_char c st)
          else scan true rest st
      | [] => scan false rest (after_char c st)
      end
    else st' ← switch_char c st; scan false rest (after_char c st').
Proof. reflexivity. Qed.

Lemma scan_comment_to_end (x : ascii) (c : text) (skipping : bool)
  (st : scan_state) :
  skipping || comment_start x st = true ->
  forallb (fun y => negb (Ascii.eqb y ch_nl)) (x :: c) = true ->
  scan skipping (x :: c) st = Ok (after_char (List.last c x) st).
Proof.
  revert x skipping. induction c as [|y c IH]; intros x skipping Hs Hn.
  - rewrite scan_cons, Hs. reflexivity.
  - cbn [forallb] in Hn. apply andb_true_iff in Hn as [Hx Hn].
    apply negb_true_iff in Hx. rewrite scan_cons, Hs, Hx.
    rewrite (IH y true) by easy.
    destruct c as [|z c]; [reflexivity|].
    change (List.last (y :: z :: c) x) with (List.last (z :: c) x).
    now rewrite (last_default c z x y).
Qed.

(** X5. After a command of literal text, a white space and a [#] start a
    comment that runs to the end of the input when no newline follows: the
    comment and the white space before it are dropped. *)
Theorem translate_trailing_comment (a c buf : text) :
  forallb literal_char a = true -> keeps_tail a = true ->
  forallb (fun y => negb (Ascii.eqb y ch_nl)) c = true ->
  TranslateCommand (a ++ str " #" ++ c) buf
  = Ok (make_to_ninja buf ++ dollars_doubled a, dollars_doubled a).
Proof.
  intros Ha Hk Hc. unfold TranslateCommand, scan_init.
  change (a ++ str " #" ++ c) with (a ++ ch_space :: ch_hash :: c).
  rewrite (scan_literal a) by assumption.
  set (buf1 := make_to_ninja buf ++ dollars_doubled a).
  change (ch_space :: ch_hash :: c) with ([ch_space] ++ ch_hash :: c).
  rewrite (scan_literal [ch_space]) by reflexivity.
  change (dollars_doubled [ch_space]) with [ch_space].
  cbn [List.last app].
  rewrite scan_comment_to_end; [|reflexivity|exact Hc].
  cbn [mbind outcome_bind after_char sc_prev_backslash sc_buf].
  pose proof (keeps_tail_doubled a Hk) as Hk'.
  destruct (Ascii.eqb (List.last c ch_hash) ch_bslash); cbn [negb].
  - rewrite resize_minus_one_snoc. cbn [mbind outcome_bind].
    now apply translate_finish.
  - cbn [mbind outcome_bind]. rewrite strip_tail_dropped by reflexivity.
    now apply translate_finish.
Qed.

Lemma translate_trailing_comment_witness :
  TranslateCommand (str "touch $@ # update the stamp\") (str "(")
  = Ok (str "(touch $$@", str "touch $$@").
Proof.
  apply (translate_trailing_comment (str "touch $@")
           (str " update the stamp\") (str "(")); reflexivity.
Defined.

Lemma scan_hash_copied (buf rest : text) (pc q : ascii) :
  isspace pc = false ->
  scan false (ch_hash :: rest) (ScanState buf false pc q)
  = scan false rest (ScanState (buf ++ [ch_hash]) false ch_hash q).
Proof.
  intros H. rewrite scan_cons. unfold comment_start.
  cbn [sc_prev_char orb]. rewrite H, andb_false_r. reflexivity.
Qed.

(** X6. A [#] that follows a character other than white space starts no
    comment: it is copied, with what follows it. *)
Theorem translate_hash_in_word (a b buf : text) :
  forallb literal_char a = true -> keeps_tail a = true ->
  forallb literal_char b = true -> keeps_tail (ch_hash :: b) = true ->
  TranslateCommand (a ++ ch_hash :: b) buf
  = Ok (make_to_ninja buf ++ dollars_doubled a ++ ch_hash :: dollars_doubled b,
        dollars_doubled a ++ ch_hash :: dollars_doubled b).
Proof.
  intros Ha Hk Hb Hkb. unfold TranslateCommand, scan_init.
  rewrite (scan_literal a) by assumption.
  destruct (keeps_tail_last a Hk) as (a' & x & -> & Hs & _).
  rewrite last_last, scan_hash_copied by assumption.
  rewrite scan_literal_end by assumption.
  cbn [mbind outcome_bind sc_prev_backslash sc_buf].
  rewrite <- !app_assoc.
  change ([ch_hash] ++ dollars_doubled b) with (ch_hash :: dollars_doubled b).
  apply translate_finish. apply keeps_tail_app.
  change (ch_hash :: dollars_doubled b)
    with (dollars_doubled (ch_hash :: b)).
  now apply keeps_tail_doubled.
Qed.

Lemma translate_hash_in_word_witness :
  TranslateCommand (str "wget http://host/page#top") []
  = Ok (str "wget http://host/page#top", str "wget http://host/page#top").
Proof.
  apply (translate_hash_in_word (str "wget http://host/page") (str "top") []);
    reflexivity.
Defined.

(** * TranslateCommand: quotes *)

Lemma quote_char_plain (q : ascii) :
  is_quote_char q = true ->
  Ascii.eqb q ch_hash = false /\ Ascii.eqb q ch_dollar = false
  /\ Ascii.eqb q ch_nl = false /\ Ascii.eqb q ch_bslash = false
  /\ Ascii.eqb q ch_nul = false.
Proof.
  unfold is_quote_char. intros H.
  repeat split;
    match goal with
    | |- Ascii.eqb q ?x = false =>
        destruct (Ascii.eqb_spec q x) as [->|]; [discriminate H|reflexivity]
    end.
Qed.

Lemma scan_quote_open (q : ascii) (buf rest : text) (pc : ascii) :
  is_quote_char q = true ->
  scan false (q :: rest) (ScanState buf false pc ch_nul)
  = scan false rest (ScanState (buf ++ [q]) false q q).
Proof.
  intros Hq. destruct (quote_char_plain q Hq) as (Hh & _ & _ & Hb & _).
  rewrite scan_cons. unfold comment_start, switch_char, after_char.
  rewrite Hh, Hq, Hb. reflexivity.
Qed.

Lemma scan_quote_close (q : ascii) (buf rest : text) (pc : ascii) :
  is_quote_char q = true ->
  scan false (q :: rest) (ScanState buf false pc q)
  = scan false rest (ScanState (buf ++ [q]) false q ch_nul).
Proof.
  intros Hq. destruct (quote_char_plain q Hq) as (Hh & _ & _ & Hb & Hn).
  rewrite scan_cons. unfold comment_start, switch_char, after_char.
  cbn [sc_quote sc_prev_backslash sc_buf sc_prev_char].
  rewrite Hh, Hq, Hb, Hn, Ascii.eqb_refl. reflexivity.
Qed.

Lemma scan_in_quote (q : ascii) (b rest buf : text) (pc : ascii) :
  is_quote_char q = true ->
  forallb (in_quote_char q) b = true ->
  scan false (b ++ rest) (ScanState buf false pc q)
  = scan false rest
      (ScanState (buf ++ dollars_doubled b) false (List.last b pc) q).
Proof.
  intros Hq. destruct (quote_char_plain q Hq) as (_ & _ & _ & _ & Hqn).
  revert buf pc. induction b as [|c b IH]; intros buf pc Hb.
  - cbn [app List.last dollars_doubled flat_map]. now rewrite app_nil_r.
  - cbn [forallb] in Hb. apply andb_true_iff in Hb as [Hc Hb].
    unfold in_quote_char in Hc.
    apply andb_true_iff in Hc as [Hc Hcq].
    apply andb_true_iff in Hc as [Hcn Hcb].
    apply negb_true_iff in Hcn, Hcb, Hcq.
    assert (Hqc : Ascii.eqb q c = false) by now rewrite Ascii.eqb_sym.
    cbn [app]. rewrite scan_cons. unfold comment_start.
    cbn [sc_quote orb]. rewrite Hqn, andb_false_r. cbn [andb].
    assert (E : switch_char c (ScanState buf false pc q)
                = Ok (ScanState (buf ++ double_dollar c) false pc q)).
    { unfold switch_char, double_dollar, set_buf.
      cbn [sc_quote sc_prev_backslash sc_buf sc_prev_char].
      destruct (Ascii.eqb_spec c ch_hash) as [->|]; [reflexivity|].
      destruct (is_quote_char c) eqn:Hcq'.
      - destruct (quote_char_plain c Hcq') as (_ & -> & _).
        now rewrite Hqn, Hqc.
      - rewrite Hcn. now destruct (Ascii.eqb c ch_dollar). }
    rewrite E. cbn [mbind outcome_bind]. unfold after_char. rewrite Hcb.
    cbn [sc_buf sc_quote]. rewrite IH by assumption.
    cbn [dollars_doubled flat_map]. rewrite <- app_assoc.
    destruct b as [|x b]; [reflexivity|].
    rewrite (last_default b x c pc). reflexivity.
Qed.

(** X7. Between two equal quote characters a white space and a [#] start no
    comment: the quoted text is copied with its quotes, only its [$] doubled.
    The same holds for a quote that is never closed, up to the end of the
    input. *)
Theorem translate_quoted (q : ascii) (a b c buf : text) :
  is_quote_char q = true ->
  forallb literal_char a = true ->
  forallb (in_quote_char q) b = true ->
  forallb literal_char c = true ->
  (keeps_tail (q :: c) = true ->
   TranslateCommand (a ++ q :: b ++ q :: c) buf
   = Ok (make_to_ninja buf
           ++ dollars_doubled a ++ q :: dollars_doubled b
           ++ q :: dollars_doubled c,
         dollars_doubled a ++ q :: dollars_doubled b
           ++ q :: dollars_doubled c))
  /\ (keeps_tail (q :: b) = true ->
      TranslateCommand (a ++ q :: b) buf
      = Ok (make_to_ninja buf ++ dollars_doubled a ++ q :: dollars_doubled b,
            dollars_doubled a ++ q :: dollars_doubled b)).
Proof.
  intros Hq Ha Hb Hc.
  destruct (quote_char_plain q Hq) as (_ & Hqd & _).
  assert (Dq : forall x, q :: dollars_doubled x = dollars_doubled (q :: x)).
  { intros x. cbn [dollars_doubled flat_map]. unfold double_dollar at 1.
    now rewrite Hqd. }
  split; intros Hk; unfold TranslateCommand, scan_init.
  - rewrite (scan_literal a), scan_quote_open by assumption.
    rewrite (scan_in_quote q b), scan_quote_close by assumption.
    rewrite scan_literal_end by assumption.
    cbn [mbind outcome_bind sc_prev_backslash sc_buf].
    rewrite <- !app_assoc. cbn [app].
    apply translate_finish. apply keeps_tail_app.
    change (q :: dollars_doubled b ++ q :: dollars_doubled c)
      with ((q :: dollars_doubled b) ++ q :: dollars_doubled c).
    apply keeps_tail_app. rewrite Dq. now apply keeps_tail_doubled.
  - rewrite (scan_literal a), scan_quote_open by assumption.
    pose proof (scan_in_quote q b [] (make_to_ninja buf
                  ++ dollars_doubled a ++ [q]) q Hq Hb) as E.
    rewrite app_nil_r in E. rewrite <- app_assoc, E.
    cbn [mbind outcome_bind sc_prev_backslash sc_buf].
    rewrite <- !app_assoc. cbn [app].
    apply translate_finish. apply keeps_tail_app.
    rewrite Dq. now apply keeps_tail_doubled.
Qed.

Lemma translate_quoted_witness :
  TranslateCommand (str "echo 'a #b' c") []
  = Ok (str "echo 'a #b' c", str "echo 'a #b' c")
  /\ TranslateCommand (str "echo 'a #b") []
     = Ok (str "echo 'a #b", str "echo 'a #b").
Proof.
  split.
  - apply (proj1 (translate_quoted ch_squote (str "echo ") (str "a #b")
                    (str " c") [] eq_refl eq_refl eq_refl eq_refl)).
    reflexivity.
  - apply (proj2 (translate_quoted ch_squote (str "echo ") (str "a #b")
                    (str " c") [] eq_refl eq_refl eq_refl eq_refl)).
    reflexivity.
Defined.

(** * Descriptions: what is refused and what is let through *)

Lemma shell_meta_plain (m : ascii) :
  is_shell_meta m = true ->
  Ascii.eqb m ch_bslash = false /\ is_quote_char m = false.
Proof.
  unfold is_shell_meta. intros H.
  repeat (apply orb_true_iff in H as [H|H]);
    apply Ascii.eqb_eq in H; subst; split; reflexivity.
Qed.

Lemma GetDescriptionFromCommand_scan (t : text) :
  GetDescriptionFromCommand (str "echo " ++ t)
  = description_scan t false ch_nul [].
Proof.
  unfold GetDescriptionFromCommand, substr_n.
  change (HasPrefix (str "echo " ++ t) (str "echo ")) with true.
  cbn [negb]. rewrite take_ge by (rewrite length_drop; lia).
  reflexivity.
Qed.

(** X8. One of [< > & | ;] outside quotes, after any well-formed pieces, makes
    the command no description, whatever follows it. *)
Theorem description_refuses_meta (segs : list segment) (m : ascii)
  (rest : text) :
  forallb segment_ok segs = true -> is_shell_meta m = true ->
  GetDescriptionFromCommand
    (str "echo " ++ flat_map render_segment segs ++ m :: rest)
  = None.
Proof.
  intros Hs Hm. rewrite GetDescriptionFromCommand_scan.
  rewrite description_scan_segments by assumption.
  destruct (shell_meta_plain m Hm) as [Hb Hq].
  cbn [description_scan]. rewrite Hb, Hq, Hm. reflexivity.
Qed.

Lemma description_refuses_meta_witness :
  GetDescriptionFromCommand (str "echo 'a > b' c > d") = None.
Proof.
  apply (description_refuses_meta
           [Quoted ch_squote (str "a > b"); Plain (str " c ")]
           ">"%char (str " d")); reflexivity.
Defined.

Lemma description_scan_open_quote (q : ascii) (t out : text) :
  is_quote_char q = true ->
  forallb (quoted_echo_char q) t = true ->
  description_scan t false q out = Some (out ++ t).
Proof.
  intros Hq. destruct (quote_char_not_special q Hq) as [Hn Hqb].
  revert out. induction t as [|c t IH]; intros out H.
  - cbn. now rewrite app_nil_r.
  - cbn [forallb] in H. apply andb_true_iff in H as [Hc Ht].
    unfold quoted_echo_char in Hc. apply andb_true_iff in Hc as [Hb Hcq].
    apply negb_true_iff in Hb, Hcq.
    cbn [description_scan]. rewrite Hb, Hn, Hcq. cbn [negb].
    rewrite IH by assumption. now rewrite <- app_assoc.
Qed.

(** X9. The quoting need not be balanced: a quote that is never closed gives a
    description all the same, made of the text up to the end. *)
Theorem description_accepts_open_quote (segs : list segment) (q : ascii)
  (t : text) :
  forallb segment_ok segs = true -> is_quote_char q = true ->
  forallb (quoted_echo_char q) t = true ->
  GetDescriptionFromCommand
    (str "echo " ++ flat_map render_segment segs ++ q :: t)
  = Some (flat_map segment_text segs ++ t).
Proof.
  intros Hs Hq Ht. rewrite GetDescriptionFromCommand_scan.
  rewrite description_scan_segments by assumption.
  destruct (quote_char_not_special q Hq) as [Hn Hqb].
  cbn [description_scan app]. rewrite Hqb, Hq. cbn [negb].
  change (Ascii.eqb ch_nul ch_nul) with true. cbn [negb].
  now apply description_scan_open_quote.
Qed.

Lemma description_accepts_open_quote_witness :
  GetDescriptionFromCommand (str "echo Compiling 'a.c; done")
  = Some (str "Compiling a.c; done").
Proof.
  apply (description_accepts_open_quote [Plain (str "Compiling ")]
           ch_squote (str "a.c; done")); reflexivity.
Defined.

(** * The place of the wrapper *)

Lemma starts_with_take (needle hay : text) (k : nat) :
  starts_with needle (take k hay) = true -> starts_with needle hay = true.
Proof.
  revert hay k. induction needle as [|a n IH]; intros hay k; [reflexivity|].
  destruct hay as [|b h], k as [|k]; cbn; try discriminate.
  intros H. apply andb_true_iff in H as [-> H]. cbn. eapply IH, H.
Qed.

Lemma gomacc_pos_place (fuel : nat) (cmdline : text) (pos : nat) :
  gomacc_pos fuel cmdline = Some pos ->
  pos < length cmdline
  /\ starts_with (str "prebuilts/") (drop pos cmdline) = true.
Proof.
  revert cmdline pos. induction fuel as [|fuel IH]; intros cmdline pos;
    [discriminate|].
  cbn [gomacc_pos].
  destruct (find [ch_space] cmdline) as [index|] eqn:E; [|discriminate].
  apply find_bound in E. cbn [length] in E.
  destruct (HasSuffix (substr_n 0 index cmdline) (str "ccache")).
  - destruct (gomacc_pos fuel (substr (S index) cmdline)) as [p|] eqn:R;
      [|discriminate].
    intros [= <-]. apply IH in R as [R1 R2]. unfold substr in *.
    rewrite length_drop in R1. rewrite drop_drop in R2.
    rewrite (Nat.add_comm p). split; [lia|exact R2].
  - unfold StripPrefix, substr_n.
    destruct (HasPrefix (take index (drop 0 cmdline)) (str "prebuilts/"))
      eqn:P; [|discriminate].
    intros H. assert (pos = 0) as ->.
    { repeat match type of H with
             | match ?x with _ => _ end = _ => destruct x; try discriminate
             | (if ?x then _ else _) = _ => destruct x; try discriminate
             end.
      now injection H. }
    split; [lia|]. unfold HasPrefix in P. cbn [drop] in *.
    eapply starts_with_take, P.
Qed.

(** X10. The position found for the wrapper lies inside the command line, and
    the compiler's path, which begins with [prebuilts/], starts there. *)
Theorem gomacc_position_at_compiler (cmdline : text) (pos : nat) :
  GetGomaccPosForAndroidCompileCommand cmdline = Some pos ->
  pos < length cmdline
  /\ starts_with (str "prebuilts/") (drop pos cmdline) = true.
Proof. apply gomacc_pos_place. Qed.

Lemma gomacc_position_at_compiler_witness :
  7 < length (str "ccache prebuilts/gcc/bin/gcc -c a.c")
  /\ starts_with (str "prebuilts/")
       (drop 7 (str "ccache prebuilts/gcc/bin/gcc -c a.c")) = true.
Proof.
  apply (gomacc_position_at_compiler
           (str "ccache prebuilts/gcc/bin/gcc -c a.c") 7).
  reflexivity.
Defined.

(** * Flags with an argument *)

Lemma starts_with_app (a b : text) : starts_with a (a ++ b) = true.
Proof.
  induction a as [|c a IH]; [reflexivity|]. cbn.
  now rewrite Ascii.eqb_refl, IH.
Qed.

Lemma find_at_head (a b : text) : find a (a ++ b) = Some 0.
Proof.
  destruct a as [|c a]; [destruct b; reflexivity|].
  cbn [app find]. change (c :: a ++ b) with ((c :: a) ++ b).
  now rewrite starts_with_app.
Qed.

Lemma TrimLeftSpace_word (w rest : text) :
  no_space w = true -> w <> [] -> TrimLeftSpace (w ++ rest) = w ++ rest.
Proof.
  destruct w as [|c w]; [easy|]. cbn [no_space forallb]. intros H _.
  apply andb_true_iff in H as [H _]. apply negb_true_iff in H.
  cbn [app TrimLeftSpace]. now rewrite H.
Qed.

Lemma TrimLeftSpace_no_space (w : text) :
  no_space w = true -> TrimLeftSpace w = w.
Proof.
  destruct w as [|c w]; [reflexivity|]. intros H.
  pose proof (TrimLeftSpace_word (c :: w) [] H) as E.
  rewrite app_nil_r in E. now apply E.
Qed.

Lemma find_in_word (name w : text) :
  no_space w = true -> find (ch_space :: name) w = None.
Proof.
  intros H. pose proof (find_after_word name w [] H) as E.
  rewrite app_nil_r in E. rewrite E. reflexivity.
Qed.

Lemma find_first_of_word (w : text) :
  no_space w = true -> find_first_of [ch_space; ch_tab] w = None.
Proof.
  induction w as [|c w IH]; [reflexivity|]. cbn [no_space forallb].
  intros H. apply andb_true_iff in H as [Hc Hw]. apply negb_true_iff in Hc.
  cbn [find_first_of existsb].
  destruct (Ascii.eqb_spec c ch_space) as [->|]; [discriminate Hc|].
  destruct (Ascii.eqb_spec c ch_tab) as [->|]; [discriminate Hc|].
  cbn [orb]. now rewrite (IH Hw).
Qed.

Lemma last_flag_arg_none (fuel : nat) (name val : text) :
  find name val = None -> last_flag_arg fuel name val = val.
Proof. intros H. destruct fuel; [reflexivity|]. cbn. now rewrite H. Qed.

(** X11. When a flag is given twice, each time with a word as its argument,
    the argument found is the one of the last occurrence. *)
Theorem last_flag_wins (name w x y : text) :
  no_space w = true -> w <> [] ->
  no_space x = true -> x <> [] ->
  no_space y = true ->
  FindCommandLineFlagWithArg
    (w ++ (ch_space :: name) ++ ch_space :: x
       ++ (ch_space :: name) ++ ch_space :: y)
    (ch_space :: name)
  = y.
Proof.
  intros Hw Hwn Hx Hxn Hy. unfold FindCommandLineFlagWithArg.
  rewrite FindCommandLineFlag_word by assumption.
  rewrite find_at_head. cbn [fmap option_fmap option_map].
  unfold substr. rewrite <- Nat.add_assoc, drop_app_add.
  rewrite Nat.add_0_l, drop_app_length.
  cbn [TrimLeftSpace]. change (isspace ch_space) with true. cbn iota.
  rewrite TrimLeftSpace_word by assumption.
  cbn [last_flag_arg].
  rewrite find_after_word by assumption.
  rewrite find_at_head. cbn [fmap option_fmap option_map].
  unfold substr. rewrite <- Nat.add_assoc, drop_app_add. rewrite Nat.add_0_l.
  rewrite drop_app_length.
  cbn [TrimLeftSpace]. change (isspace ch_space) with true. cbn iota.
  rewrite TrimLeftSpace_no_space by assumption.
  rewrite last_flag_arg_none by now apply find_in_word.
  now rewrite find_first_of_word.
Qed.

Lemma last_flag_wins_witness :
  FindCommandLineFlagWithArg (str "gcc -o a.o -o b.o") (str " -o")
  = str "b.o".
Proof.
  apply (last_flag_wins (str "-o") (str "gcc") (str "a.o") (str "b.o"));
    reflexivity || discriminate.
Defined.

(** * Depfiles: a detection that finds nothing *)

Lemma GetDepfileFromCommand_false (c out c' out' : text) :
  GetDepfileFromCommand c out = Ok (false, c', out') -> c' = c.
Proof.
  unfold GetDepfileFromCommand. destruct c as [|a c]; [discriminate|].
  destruct (GetDepfileFromCommandImpl (a :: c) out) as [found d].
  destruct found; cbn [negb]; [|now intros [= <- _]].
  destruct (find (str "bin/llvm-rs-cc ") (a :: c)); [now intros [= <- _]|].
  destruct (find (StripExt d ++ str ".P") (a :: c)).
  - destruct (find (str "; rm -f " ++ d) (a :: c)); discriminate.
  - destruct (find (str "/" ++ StripExt (Basename d) ++ str ".s") (a :: c));
      [now intros [= <- _]|discriminate].
Qed.

(** X12. When [GetDepfile] reports no depfile, the command is as it was. *)
Theorem GetDepfile_false_keeps_command (fl : Flags) (node : DepNode)
  (cmd_buf depfile cmd_buf' depfile' : text) :
  GetDepfile fl node cmd_buf depfile = Ok (false, cmd_buf', depfile') ->
  cmd_buf' = cmd_buf.
Proof.
  unfold GetDepfile. destruct (depfile_var node); [discriminate|].
  destruct (detect_depfiles fl); cbn [negb]; [|now intros [= <- _]].
  destruct (GetDepfileFromCommand (cmd_buf ++ [ch_space]) depfile)
    as [[[r c] d]|] eqn:E; cbn [mbind outcome_bind]; [|discriminate].
  destruct (resize_minus_one c) as [c2|] eqn:R; cbn [mbind outcome_bind];
    [|discriminate].
  intros [= -> <- _]. apply GetDepfileFromCommand_false in E. subst c.
  rewrite resize_minus_one_snoc in R. now injection R.
Qed.

Lemma GetDepfile_false_keeps_command_witness :
  str "gcc -MD -o a.o a.o.in" = str "gcc -MD -o a.o a.o.in".
Proof.
  apply (GetDepfile_false_keeps_command depfile_flags
           (rule_node (str "a.o") []) (str "gcc -MD -o a.o a.o.in") []
           (str "gcc -MD -o a.o a.o.in") []).
  reflexivity.
Defined.

(** * GenShellScript *)

Lemma make_to_ninja_length (buf : text) :
  length buf <= length (make_to_ninja buf).
Proof.
  rewrite make_to_ninja_cases.
  destruct (starts_with (str "make ") buf) eqn:E; [|lia].
  apply starts_with_length in E. cbn [length str] in E.
  rewrite length_app, length_drop. cbn. cbn in E. lia.
Qed.

(** X13. A round of [GenShellScript] fails only when the translation of its
    command fails: the wrapper is always put inside the buffer. *)
Theorem GenShellScript_command_fails_in_translate (fl : Flags)
  (g : Generator) (name : text) (c : Command) (s : shell_state)
  (f : failure) :
  GenShellScript_command fl g name c s = Abort f ->
  TranslateCommand (skip_spaces (c_str (cmd c))) (buffer_for c s) = Abort f.
Proof.
  unfold GenShellScript_command, buffer_for. cbv zeta.
  set (buffer := if (1 <? sh_command_count s) || ignore_error c then _
                 else _).
  destruct (TranslateCommand (skip_spaces (c_str (cmd c))) buffer)
    as [[buf t]|f'] eqn:T; cbn [mbind outcome_bind];
    [|now intros [= ->]].
  intros H. exfalso. revert H.
  pose proof (proj1 (TranslateCommand_shape _ _ _ _ T)) as ->.
  destruct (if detect_android_echo fl && negb (sh_got_description s)
               && negb (echo c)
            then GetDescriptionFromCommand t else None); [discriminate|].
  destruct (IsOutputMkdir name t && negb (echo c)
            && (length (sh_cmd_buf s) =? 0)); [discriminate|].
  destruct t as [|x t]; [discriminate|].
  destruct (goma_dir fl).
  - destruct (GetGomaccPosForAndroidCompileCommand (x :: t)) as [pos|] eqn:P;
      cbn [mbind outcome_bind]; [|discriminate].
    apply gomacc_pos_place in P as [P _].
    unfold insert_at.
    pose proof (make_to_ninja_length buffer) as L.
    replace (_ <=? _) with true; [discriminate|].
    symmetry. apply Nat.leb_le. rewrite length_app. lia.
  - destruct (find (str "/gomacc") (x :: t)); discriminate.
Qed.

Lemma GenShellScript_command_fails_in_translate_witness :
  TranslateCommand (skip_spaces (c_str (str "# nothing to do")))
    (buffer_for (command (str "# nothing to do") true)
       (ShellState [] (str "build $out") false false 1))
  = Abort OutOfRange.
Proof.
  apply (GenShellScript_command_fails_in_translate plain_flags
           fresh_generator (str "all")
           (command (str "# nothing to do") true)
           (ShellState [] (str "build $out") false false 1)).
  reflexivity.
Defined.

Lemma c_str_no_nul (t : text) :
  forallb (fun x => negb (Ascii.eqb x ch_nul)) t = true -> c_str t = t.
Proof.
  induction t as [|x t IH]; [reflexivity|]. cbn [forallb c_str].
  intros H. apply andb_true_iff in H as [Hx Ht].
  apply negb_true_iff in Hx. now rewrite Hx, IH.
Qed.

Lemma make_to_ninja_paren (buf : text) :
  buf = [] \/ starts_with (str "(") buf = true -> make_to_ninja buf = buf.
Proof.
  intros [->|H]; [reflexivity|]. rewrite make_to_ninja_cases.
  destruct buf as [|x buf]; [reflexivity|].
  change (Ascii.eqb "("%char x && true = true) in H.
  rewrite andb_true_r in H. apply Ascii.eqb_eq in H. subst x. reflexivity.
Qed.

Lemma starts_with_grow (p b x : text) :
  starts_with p b = true -> starts_with p (b ++ x) = true.
Proof.
  revert b. induction p as [|a p IH]; intros b; [reflexivity|].
  destruct b as [|c b]; [discriminate|]. cbn.
  intros H. apply andb_true_iff in H as [-> H]. cbn. now apply IH.
Qed.

Lemma plain_command_facts (c : Command) :
  plain_command c = true ->
  echo c = true /\ forallb literal_char (cmd c) = true
  /\ keeps_tail (cmd c) = true
  /\ skip_spaces (c_str (cmd c)) = cmd c.
Proof.
  unfold plain_command. intros H.
  repeat (apply andb_true_iff in H as [H ?]).
  repeat split; try assumption.
  rewrite c_str_no_nul by assumption.
  destruct (cmd c) as [|x t]; [discriminate|].
  cbn [skip_spaces]. match goal with
                     | H : negb (isspace x) = true |- _ =>
                         apply negb_true_iff in H; now rewrite H
                     end.
Qed.

Lemma dollars_doubled_nonempty (t : text) :
  keeps_tail t = true -> exists x r, dollars_doubled t = x :: r.
Proof.
  intros H. apply keeps_tail_doubled in H.
  destruct (dollars_doubled t) as [|x r]; [discriminate H|eauto].
Qed.

Lemma command_step (fl : Flags) (g : Generator) (name : text) (c : Command)
  (s : shell_state) :
  goma_dir fl = None -> plain_command c = true ->
  sh_cmd_buf s = [] \/ starts_with (str "(") (sh_cmd_buf s) = true ->
  GenShellScript_command fl g name c s
  = Ok (ShellState
          (match sh_cmd_buf s with
           | [] => []
           | _ => sh_cmd_buf s ++ str " && "
           end ++ wrapped (sh_command_count s) c)
          (sh_description s) (sh_got_description s)
          (sh_use_gomacc s || mentions_gomacc c) (sh_command_count s)).
Proof.
  intros Hg Hc Hb.
  destruct (plain_command_facts c Hc) as (He & Hl & Hk & Hin).
  unfold GenShellScript_command. cbv zeta. rewrite Hin.
  set (prefix := match sh_cmd_buf s with
                 | [] => []
                 | _ => sh_cmd_buf s ++ str " && "
                 end).
  assert (Hp : prefix = [] \/ starts_with (str "(") prefix = true).
  { subst prefix. destruct Hb as [->|Hb]; [now left|].
    destruct (sh_cmd_buf s) eqn:E; [now left|]. right.
    now apply starts_with_grow. }
  set (buffer := if (1 <? sh_command_count s) || ignore_error c
                 then prefix ++ str "(" else prefix).
  assert (Hm : make_to_ninja buffer = buffer).
  { apply make_to_ninja_paren. subst buffer.
    destruct ((1 <? sh_command_count s) || ignore_error c); [|assumption].
    right. destruct Hp as [->|Hp]; [reflexivity|].
    now apply starts_with_grow. }
  rewrite TranslateCommand_literal by assumption. rewrite Hm.
  cbn [mbind outcome_bind]. rewrite He. cbn [negb].
  rewrite !andb_false_r. cbn iota.
  destruct (dollars_doubled_nonempty (cmd c) Hk) as (x & r & Hd).
  rewrite Hg. unfold mentions_gomacc. rewrite Hd. cbn [andb].
  assert (E : forall b : text,
             (if find (str "/gomacc") (x :: r) is Some _
              then Ok (b, true) else Ok (b, sh_use_gomacc s))
             = Ok (b, sh_use_gomacc s
                      || (if find (str "/gomacc") (x :: r) is Some _
                          then true else false))).
  { intros b. destruct (find (str "/gomacc") (x :: r));
      [now rewrite orb_true_r|now rewrite orb_false_r]. }
  rewrite E. cbn [mbind outcome_bind]. do 2 f_equal.
  subst buffer. unfold wrapped. rewrite Hd.
  destruct (1 <? sh_command_count s), (ignore_error c); cbn [orb];
    rewrite <- ?app_assoc, ?app_nil_r; reflexivity.
Qed.

Lemma command_loop (fl : Flags) (g : Generator) (name : text)
  (cs : list Command) :
  goma_dir fl = None -> forallb plain_command cs = true ->
  forall (buf d : text) (got used : bool) (n : nat),
    starts_with (str "(") buf = true ->
    GenShellScript_loop fl g name cs (ShellState buf d got used n)
    = Ok (ShellState
            (buf ++ flat_map (fun c => str " && " ++ wrapped n c) cs)
            d got (used || existsb mentions_gomacc cs) n).
Proof.
  intros Hg. induction cs as [|c cs IH]; intros Hcs buf d got used n Hb.
  - cbn. now rewrite app_nil_r, orb_false_r.
  - cbn [forallb] in Hcs. apply andb_true_iff in Hcs as [Hc Hcs].
    cbn [GenShellScript_loop].
    rewrite command_step by (try assumption; now right).
    cbn [mbind outcome_bind sh_cmd_buf sh_description sh_got_description
         sh_use_gomacc sh_command_count].
    destruct buf as [|b0 buf]; [discriminate Hb|].
    rewrite IH by (try assumption; now apply starts_with_grow).
    cbn [flat_map existsb]. rewrite <- !app_assoc, orb_assoc. reflexivity.
Qed.

Lemma flat_map_of_map {A B C : Type} (f : B -> list C) (h : A -> B)
  (l : list A) :
  flat_map f (map h l) = flat_map (fun x => f (h x)) l.
Proof. induction l as [|x l IH]; [reflexivity|]. cbn. now rewrite IH. Qed.

(** X14. A recipe of echoed commands of literal text, without a goma
    directory: the commands, with their [$] doubled, are joined by [ && ];
    each is put in a subshell when the recipe has several commands or the
    command ignores errors, in which case [ ; true] ends it; and the local
    pool is asked for exactly when remote execution is enabled and no command
    holds [/gomacc]. *)
Theorem GenShellScript_chain (fl : Flags) (g : Generator) (name : text)
  (cs : list Command) (d : text) :
  goma_dir fl = None -> forallb plain_command cs = true ->
  GenShellScript fl g name cs [] d
  = Ok (remote_enabled fl g && negb (existsb mentions_gomacc cs),
        and_chain (map (wrapped (length cs)) cs), d).
Proof.
  intros Hg Hcs. unfold GenShellScript.
  destruct cs as [|c cs]; [reflexivity|].
  cbn [forallb] in Hcs. apply andb_true_iff in Hcs as [Hc Hcs].
  cbn [GenShellScript_loop].
  rewrite command_step by (try assumption; now left).
  cbn [mbind outcome_bind sh_cmd_buf sh_description sh_got_description
       sh_use_gomacc sh_command_count app orb].
  destruct cs as [|c2 cs].
  - cbn. now rewrite app_nil_r, orb_false_r.
  - rewrite command_loop; try assumption.
    + cbn [mbind outcome_bind sh_cmd_buf sh_description sh_use_gomacc].
      rewrite map_cons. unfold and_chain. rewrite flat_map_of_map.
      reflexivity.
    + unfold wrapped. cbn [length Nat.ltb Nat.leb orb]. reflexivity.
Qed.

Lemma GenShellScript_chain_witness :
  GenShellScript plain_flags fresh_generator (str "a")
    [command (str "make -C sub") true;
     {| cmd := str "rm tmp"; echo := true; ignore_error := true |}]
    [] (str "build $out")
  = Ok (false, str "(make -C sub ) && (rm tmp ; true )", str "build $out").
Proof.
  apply (GenShellScript_chain plain_flags fresh_generator (str "a")
           [command (str "make -C sub") true;
            {| cmd := str "rm tmp"; echo := true; ignore_error := true |}]
           (str "build $out")); reflexivity.
Defined.

Lemma IsOutputMkdir_own_directory (name : text) :
  IsOutputMkdir name (str "mkdir -p " ++ Dirname name ++ str "/") = true.
Proof.
  unfold IsOutputMkdir, HasPrefix, substr_n.
  rewrite starts_with_app. cbn [negb].
  set (D := Dirname name).
  change (drop 9 (str "mkdir -p " ++ D ++ str "/")) with (D ++ str "/").
  rewrite (take_ge (D ++ str "/"))
    by (rewrite !length_app; cbn [length str]; cbn; lia).
  unfold sp_get.
  replace (Z.of_nat (length (D ++ str "/")) - 1)%Z
    with (Z.of_nat (length D))
    by (rewrite length_app; cbn [length str]; cbn; lia).
  replace (0 <=? Z.of_nat (length D))%Z with true
    by (symmetry; apply Z.leb_le; lia).
  rewrite Nat2Z.id. change (str "/") with [ch_slash].
  rewrite nth_middle, Ascii.eqb_refl. cbn [drop].
  replace (length (D ++ [ch_slash]) - 1) with (length D)
    by (rewrite length_app; cbn; lia).
  change (drop 0 (D ++ [ch_slash])) with (D ++ [ch_slash]).
  rewrite take_app_length. now apply bool_decide_eq_true.
Qed.

Lemma dollars_doubled_none (t : text) :
  forallb (fun x => negb (Ascii.eqb x ch_dollar)) t = true ->
  dollars_doubled t = t.
Proof.
  induction t as [|x t IH]; [reflexivity|]. cbn [forallb].
  intros H. apply andb_true_iff in H as [Hx Ht]. apply negb_true_iff in Hx.
  cbn [dollars_doubled flat_map]. unfold double_dollar at 1. rewrite Hx.
  cbn [app]. f_equal. now apply IH.
Qed.

Lemma forallb_three {A : Type} (p1 p2 p3 : A -> bool) (l : list A) :
  forallb (fun x => p1 x && p2 x && p3 x) l = true ->
  forallb p1 l = true /\ forallb p2 l = true /\ forallb p3 l = true.
Proof.
  induction l as [|x t IH]; [easy|].
  cbn [forallb]. intros H. apply andb_true_iff in H as [H Ht].
  apply andb_true_iff in H as [H H3]. apply andb_true_iff in H as [H1 H2].
  destruct (IH Ht) as (-> & -> & ->). now rewrite H1, H2, H3.
Qed.

(** X15. A recipe that is only the silent [mkdir -p] of the directory of its
    own target, written with a slash at its end, gives an empty command and
    leaves the description alone. *)
Theorem own_directory_mkdir_dropped (fl : Flags) (g : Generator)
  (name : text) (c : Command) (d : text) :
  echo c = false -> ignore_error c = false ->
  cmd c = str "mkdir -p " ++ Dirname name ++ str "/" ->
  forallb (fun x => literal_char x && negb (Ascii.eqb x ch_dollar)
                    && negb (Ascii.eqb x ch_nul)) (Dirname name) = true ->
  GenShellScript fl g name [c] [] d = Ok (remote_enabled fl g, [], d).
Proof.
  intros He Hi Hc HD.
  assert (H1 : forallb literal_char (Dirname name) = true
               /\ forallb (fun x => negb (Ascii.eqb x ch_dollar))
                    (Dirname name) = true
               /\ forallb (fun x => negb (Ascii.eqb x ch_nul))
                    (Dirname name) = true).
  { now apply forallb_three in HD. }
  destruct H1 as (Hl & Hd & Hn).
  unfold GenShellScript. cbn [GenShellScript_loop length].
  unfold GenShellScript_command. cbv zeta.
  cbn [sh_cmd_buf sh_command_count sh_got_description sh_description
       sh_use_gomacc Nat.ltb Nat.leb orb length]. rewrite Hi, He, Hc.
  rewrite c_str_no_nul
    by (rewrite !forallb_app, Hn; reflexivity).
  change (skip_spaces (str "mkdir -p " ++ Dirname name ++ str "/"))
    with (str "mkdir -p " ++ Dirname name ++ str "/").
  rewrite TranslateCommand_literal;
    [|rewrite !forallb_app, Hl; reflexivity
     |rewrite app_assoc; apply keeps_tail_app; reflexivity].
  rewrite dollars_doubled_none
    by (rewrite !forallb_app, Hd; reflexivity).
  cbn [mbind outcome_bind make_to_ninja app].
  assert (G : GetDescriptionFromCommand
                (str "mkdir -p " ++ Dirname name ++ str "/") = None)
    by reflexivity.
  rewrite G, IsOutputMkdir_own_directory. cbn [negb andb].
  assert (N : (if detect_android_echo fl && true && true
               then @None text else None) = None)
    by (now destruct (detect_android_echo fl)).
  rewrite N. cbn [Nat.eqb resize take]. cbn [mbind outcome_bind].
  cbn [sh_use_gomacc sh_cmd_buf sh_description negb length Nat.sub
       replicate app].
  now rewrite andb_true_r.
Qed.

Lemma own_directory_mkdir_dropped_witness :
  GenShellScript echo_flags fresh_generator (str "out/obj/a.o")
    [command (str "mkdir -p out/obj/") false] [] (str "build $out")
  = Ok (false, [], str "build $out").
Proof.
  apply (own_directory_mkdir_dropped echo_flags fresh_generator
           (str "out/obj/a.o") (command (str "mkdir -p out/obj/") false)
           (str "build $out")); reflexivity.
Defined.

(** * Escaped names *)

(** X16. Escaping loses nothing: two names with the same escaped form are the
    same name; and the escaped form is longer by one character for each [$],
    [:] and space. *)
Theorem EscapeNinja_injective (a b : text) :
  (EscapeNinja a = EscapeNinja b -> a = b)
  /\ length (EscapeNinja a)
     = length a + length (List.filter needs_escape a).
Proof.
  split.
  - intros H. apply (f_equal UnescapeNinja) in H.
    now rewrite !EscapeNinja_flat_map, !unescape_escape in H.
  - rewrite EscapeNinja_flat_map.
    induction a as [|c a IH]; [reflexivity|].
    cbn [flat_map List.filter]. rewrite length_app, IH. unfold escape_char.
    destruct (needs_escape c); cbn [length]; lia.
Qed.

Lemma EscapeNinja_injective_witness : str "a b:c" = str "a b:c".
Proof.
  apply (proj1 (EscapeNinja_injective (str "a b:c") (str "a b:c"))).
  reflexivity.
Defined.

Lemma read_escaped (n rest : text) (done : list text) (cur : text) :
  read_names (flat_map escape_char n ++ rest) done (Some cur)
  = read_names rest done (Some (cur ++ n)).
Proof.
  revert cur. induction n as [|c n IH]; intros cur.
  - cbn [flat_map app]. now rewrite app_nil_r.
  - cbn [flat_map]. rewrite <- app_assoc. unfold escape_char at 1.
    destruct (needs_escape c) eqn:E.
    + cbn [app read_names default]. change (Ascii.eqb ch_dollar ch_space)
        with false. change (Ascii.eqb ch_dollar ch_dollar) with true.
      cbn iota. rewrite IH. now rewrite <- app_assoc.
    + unfold needs_escape in E.
      apply orb_false_iff in E as [E Es].
      apply orb_false_iff in E as [Ed Ec].
      cbn [app read_names default]. rewrite Es, Ed, IH.
      now rewrite <- app_assoc.
Qed.

Lemma read_emit_targets (names : list text) (done : list text)
  (cur : option text) :
  read_names (emit_targets names) done cur
  = done ++ option_list cur ++ names.
Proof.
  revert done cur. induction names as [|n names IH]; intros done cur.
  - cbn. now rewrite app_nil_r.
  - cbn [emit_targets flat_map]. cbn [app read_names].
    change (Ascii.eqb ch_space ch_space) with true. cbn iota.
    unfold EscapeBuildTarget. rewrite EscapeNinja_flat_map.
    rewrite read_escaped. fold (emit_targets names). rewrite IH.
    cbn [option_list app]. now rewrite <- !app_assoc.
Qed.

(** X17. The names written after one another on a line, each escaped and with
    a space before it, can be told apart again: two lists of names that give
    the same text are the same list. *)
Theorem emit_targets_injective (names names' : list text) :
  emit_targets names = emit_targets names' -> names = names'.
Proof.
  intros H. apply (f_equal (fun s => read_names s [] None)) in H.
  now rewrite !read_emit_targets in H.
Qed.

Lemma emit_targets_injective_witness :
  [str "a b"; str "c"] = [str "a b"; str "c"].
Proof.
  apply (emit_targets_injective [str "a b"; str "c"] [str "a b"; str "c"]).
  reflexivity.
Defined.

(** * The files of a run *)

Lemma ninja_is_not_env (fl : Flags) :
  GetNinjaFilename fl <> GetEnvScriptFilename fl.
Proof. apply GetFilename_differ. intros s E. discriminate E. Qed.

Lemma ninja_is_not_script (fl : Flags) :
  GetNinjaFilename fl <> GetNinjaShellScriptFilename fl.
Proof. apply GetFilename_differ. intros s E. discriminate E. Qed.

Lemma ninja_is_not_temp (fl : Flags) :
  GetNinjaFilename fl <> GetStampTempFilename fl.
Proof. apply GetFilename_differ. intros s E. discriminate E. Qed.

Lemma env_is_not_script (fl : Flags) :
  GetEnvScriptFilename fl <> GetNinjaShellScriptFilename fl.
Proof. apply GetFilename_differ. intros s E. discriminate E. Qed.

Lemma env_is_not_temp (fl : Flags) :
  GetEnvScriptFilename fl <> GetStampTempFilename fl.
Proof. apply GetFilename_differ. intros s E. discriminate E. Qed.

Lemma script_is_not_temp (fl : Flags) :
  GetNinjaShellScriptFilename fl <> GetStampTempFilename fl.
Proof. apply GetFilename_differ. intros s E. discriminate E. Qed.

(** X18. Whatever the directory and the suffix, the ninja file, the two
    scripts, the stamp and the temporary stamp are five different files. *)
Theorem run_files_distinct (fl : Flags) : NoDup (run_files fl).
Proof.
  unfold run_files.
  pose proof (stamp_is_not_temp fl). pose proof (stamp_is_not_ninja fl).
  pose proof (stamp_is_not_env fl). pose proof (stamp_is_not_script fl).
  pose proof (ninja_is_not_env fl). pose proof (ninja_is_not_script fl).
  pose proof (ninja_is_not_temp fl). pose proof (env_is_not_script fl).
  pose proof (env_is_not_temp fl). pose proof (script_is_not_temp fl).
  repeat (apply NoDup_cons; split;
          [rewrite ?not_elem_of_cons; repeat split;
           try congruence; apply not_elem_of_nil|]).
  apply NoDup_nil_2.
Qed.

Lemma Generate_avoids (ext : Externals) (fl : Flags) (g : Generator)
  (nodes : list (text * DepNode)) (orig_args q : text) :
  q ∉ run_files fl ->
  Forall (avoids q) (Generate ext fl g nodes orig_args).
Proof.
  unfold run_files. rewrite !not_elem_of_cons.
  intros (H1 & H2 & H3 & H4 & H5 & _). unfold Generate.
  destruct (GenerateNinja ext fl (PopulateNinjaNodes fl nodes g))
    as [ninja_text r].
  apply Forall_app. split; [repeat constructor; cbn; congruence|].
  apply Forall_app. split; [apply write_file_avoids; congruence|].
  destruct r as [g'|]; [|constructor].
  unfold GenerateShell, GenerateStamp. rewrite !Forall_app.
  repeat split; try (apply write_file_avoids; congruence);
    repeat constructor; cbn; congruence.
Qed.

(** X19. A run, stopped after any number of steps, has changed no file but its
    own five. *)
Theorem Generate_touches_only_its_files (ext : Externals) (fl : Flags)
  (g : Generator) (nodes : list (text * DepNode)) (orig_args q : text)
  (fs : gmap text text) (n : nat) :
  q ∉ run_files fl ->
  fs_run (take n (Generate ext fl g nodes orig_args)) fs !! q = fs !! q.
Proof.
  intros H. apply fs_run_avoids, Forall_take.
  now apply Generate_avoids.
Qed.

Lemma Generate_touches_only_its_files_witness :
  fs_run (take 40 (Generate sample_externals plain_flags fresh_generator
                     [(str "all", all_node)] (str "ckati")))
    {[ str "./Makefile" := str "all:" ]} !! str "./Makefile"
  = ({[ str "./Makefile" := str "all:" ]} : gmap text text)
      !! str "./Makefile".
Proof.
  apply (Generate_touches_only_its_files sample_externals plain_flags
           fresh_generator [(str "all", all_node)] (str "ckati")
           (str "./Makefile") {[ str "./Makefile" := str "all:" ]} 40).
  unfold run_files. rewrite !not_elem_of_cons.
  repeat split; try discriminate. apply not_elem_of_nil.
Defined.

Lemma fs_run_write_then (p content : text) (rest : list fs_op)
  (fs : gmap text text) :
  Forall (avoids p) rest ->
  fs_run (write_file p content ++ rest) fs !! p = Some content.
Proof.
  intros H. rewrite fs_run_app, fs_run_avoids by assumption.
  apply fs_run_write_file.
Qed.

(** X20. After a run in which nothing failed, the ninja file holds the text
    that was emitted, the two scripts hold theirs, and the temporary stamp is
    gone. *)
Theorem Generate_leaves_its_files (ext : Externals) (fl : Flags)
  (g g' : Generator) (nodes : list (text * DepNode)) (orig_args : text)
  (fs : gmap text text) :
  generator_at_stamp ext fl g nodes = Ok g' ->
  let fs' := fs_run (Generate ext fl g nodes orig_args) fs in
  fs' !! GetNinjaFilename fl
    = Some (fst (GenerateNinja ext fl (PopulateNinjaNodes fl nodes g)))
  /\ fs' !! GetEnvScriptFilename fl = Some (env_script ext)
  /\ fs' !! GetNinjaShellScriptFilename fl = Some (ninja_script ext fl)
  /\ fs' !! GetStampTempFilename fl = None.
Proof.
  unfold generator_at_stamp, Generate. cbv zeta.
  destruct (GenerateNinja ext fl (PopulateNinjaNodes fl nodes g))
    as [ninja_text r]. cbn [snd fst]. intros ->.
  pose proof (stamp_is_not_temp fl). pose proof (stamp_is_not_ninja fl).
  pose proof (stamp_is_not_env fl). pose proof (stamp_is_not_script fl).
  pose proof (ninja_is_not_env fl). pose proof (ninja_is_not_script fl).
  pose proof (ninja_is_not_temp fl). pose proof (env_is_not_script fl).
  pose proof (env_is_not_temp fl). pose proof (script_is_not_temp fl).
  unfold GenerateShell, GenerateStamp.
  assert (W : forall p q c, p <> q -> Forall (avoids q) (write_file p c))
    by (intros; now apply write_file_avoids).
  repeat split.
  - rewrite fs_run_app. apply fs_run_write_then.
    rewrite !Forall_app. repeat split; try (apply W; congruence);
      repeat constructor; cbn; congruence.
  - rewrite fs_run_app, (fs_run_app (write_file _ ninja_text)).
    rewrite <- !app_assoc. apply fs_run_write_then.
    rewrite !Forall_app. repeat split; try (apply W; congruence);
      repeat constructor; cbn; congruence.
  - rewrite fs_run_app, (fs_run_app (write_file _ ninja_text)).
    rewrite <- !app_assoc. rewrite (fs_run_app (write_file _ (env_script ext))).
    apply fs_run_write_then.
    rewrite !Forall_app. repeat split; try (apply W; congruence);
      repeat constructor; cbn; congruence.
  - rewrite !app_assoc, fs_run_app. cbn [fs_run fold_left fs_step].
    match goal with
    | |- match ?x with _ => _ end !! _ = None => destruct x eqn:E
    end.
    + rewrite lookup_insert_ne by congruence. apply lookup_delete_eq.
    + exact E.
Qed.

Lemma Generate_leaves_its_files_witness :
  fs_run (Generate sample_externals plain_flags fresh_generator
            [(str "all", all_node)] (str "ckati"))
    earlier_fs !! GetStampTempFilename plain_flags = None.
Proof.
  exact (proj2 (proj2 (proj2
           (Generate_leaves_its_files sample_externals plain_flags
              fresh_generator
              (record_used_envs sample_externals
                 (set_default_target (Some all_node)
                    (all_generator plain_flags)))
              [(str "all", all_node)] (str "ckati") earlier_fs
              ltac:(vm_compute; reflexivity))))).
Defined.

(** * The traversal: what it keeps *)

Lemma traversed_refl (fl : Flags) (g : Generator) : traversed fl g g.
Proof.
  split; [reflexivity|]. exists []. rewrite app_nil_r.
  repeat split; constructor.
Qed.

Lemma traversed_trans (fl : Flags) (g1 g2 g3 : Generator) :
  traversed fl g1 g2 -> traversed fl g2 g3 -> traversed fl g1 g3.
Proof.
  intros (S1 & a1 & N1 & F1 & D1) (S2 & a2 & N2 & F2 & D2).
  split; [set_solver|]. exists (a1 ++ a2). repeat split.
  - now rewrite N2, N1, <- app_assoc.
  - apply Forall_app. split.
    + eapply Forall_impl; [exact F1|]. cbn. intros nn (? & ? & ?).
      split; [assumption|split; [set_solver|assumption]].
    + eapply Forall_impl; [exact F2|]. cbn. intros nn (? & ? & ?).
      split; [assumption|split; [assumption|set_solver]].
  - rewrite map_app. apply NoDup_app. repeat split; [assumption| |assumption].
    intros x Hx1 Hx2.
    apply list_elem_of_fmap in Hx1 as (n1 & -> & Hn1).
    apply list_elem_of_fmap in Hx2 as (n2 & E & Hn2).
    rewrite Forall_forall in F1, F2.
    destruct (F1 n1 Hn1) as (_ & In1 & _).
    destruct (F2 n2 Hn2) as (_ & _ & Out2).
    rewrite <- E in Out2. contradiction.
Qed.

Lemma traversed_fold (fl : Flags) (l : list (text * DepNode)) :
  Forall (fun d => forall g, traversed fl g (PopulateNinjaNode fl (snd d) g))
         l ->
  forall g,
    traversed fl g
      (fold_left (fun g d => PopulateNinjaNode fl (snd d) g) l g).
Proof.
  induction 1 as [|d l Hd Hl IH]; intros g; [apply traversed_refl|].
  cbn [fold_left]. eapply traversed_trans; [apply Hd|apply IH].
Qed.

Lemma PopulateNinjaNode_unfold (fl : Flags) (node : DepNode)
  (g : Generator) :
  PopulateNinjaNode fl node g
  = if bool_decide (output node ∈ done_ g) then g
    else
      let g := set_done ({[ output node ]} ∪ done_ g) g in
      if detect_android_echo fl && bool_decide (output node = str "out")
      then g
      else if negb (has_rule node) && negb (is_phony node) then g
      else
        let commands := eval_commands node in
        let rule_id :=
          match commands with [] => (-1)%Z | _ => rule_id_ g end in
        let g := match commands with
                 | [] => g
                 | _ => set_rule_id (wrap_int (rule_id_ g + 1)) g
                 end in
        let nn := {| nn_node := node; nn_commands := commands;
                     nn_rule_id := rule_id |} in
        let g := set_nodes (nodes_ g ++ [nn]) g in
        let g := fold_left (fun g d => PopulateNinjaNode fl (snd d) g)
                           (deps node) g in
        let g := fold_left (fun g d => PopulateNinjaNode fl (snd d) g)
                           (order_onlys node) g in
        fold_left (fun g d => PopulateNinjaNode fl (snd d) g)
                  (validations node) g.
Proof. destruct node. reflexivity. Qed.

Lemma PopulateNinjaNode_traversed (fl : Flags) (node : DepNode) :
  forall g,
    traversed fl g (PopulateNinjaNode fl node g)
    /\ output node ∈ done_ (PopulateNinjaNode fl node g).
Proof.
  induction node as [node Hd Ho Hv] using DepNode_below. intros g.
  rewrite PopulateNinjaNode_unfold.
  case_bool_decide as Hdone; [split; [apply traversed_refl|assumption]|].
  cbv zeta.
  set (g1 := set_done ({[ output node ]} ∪ done_ g) g).
  assert (T1 : traversed fl g g1).
  { split; [cbn; set_solver|]. exists []. cbn. rewrite app_nil_r.
    repeat split; constructor. }
  assert (I1 : output node ∈ done_ g1) by (cbn; set_solver).
  destruct (detect_android_echo fl && bool_decide (output node = str "out"))
    eqn:Eout; [now split|].
  destruct (negb (has_rule node) && negb (is_phony node)) eqn:Eleaf;
    [now split|].
  set (nn := {| nn_node := node; nn_commands := eval_commands node;
                nn_rule_id := match eval_commands node with
                              | [] => (-1)%Z
                              | _ => rule_id_ g1
                              end |}).
  set (g2 := set_nodes _ _).
  assert (T2 : traversed fl g g2 /\ output node ∈ done_ g2).
  { assert (Dg2 : done_ g2 = {[ output node ]} ∪ done_ g)
      by (subst g2; destruct (eval_commands node); reflexivity).
    assert (Ng2 : nodes_ g2 = nodes_ g ++ [nn])
      by (subst g2; destruct (eval_commands node); reflexivity).
    split; [|rewrite Dg2; apply elem_of_union_l, elem_of_singleton;
             reflexivity].
    split; [rewrite Dg2; apply union_subseteq_r|].
    exists [nn]. split; [exact Ng2|].
    split; [|cbn; apply NoDup_singleton].
    constructor; [|constructor]. split; [|split].
    - repeat split.
      + cbn. destruct (has_rule node), (is_phony node); easy.
      + cbn. now intros ->.
      + intros Ha. apply andb_false_iff in Eout as [E|E];
          [congruence|]. now apply bool_decide_eq_false in E.
    - rewrite Dg2. apply elem_of_union_l, elem_of_singleton. reflexivity.
    - exact Hdone. }
  destruct T2 as [T2 I2].
  assert (F : forall (l : list (text * DepNode)) g0,
             Forall (fun d => forall g,
                       traversed fl g (PopulateNinjaNode fl (snd d) g)
                       /\ output (snd d)
                          ∈ done_ (PopulateNinjaNode fl (snd d) g)) l ->
             traversed fl g0
               (fold_left (fun g d => PopulateNinjaNode fl (snd d) g) l g0)).
  { intros l g0 H. apply traversed_fold.
    eapply Forall_impl; [exact H|]. cbn. intros d Hq g'. apply Hq. }
  pose proof (F _ g2 Hd) as Td. set (ga := fold_left _ (deps node) g2) in *.
  pose proof (F _ ga Ho) as To.
  set (gb := fold_left _ (order_onlys node) ga) in *.
  pose proof (F _ gb Hv) as Tv.
  set (gc := fold_left _ (validations node) gb) in *.
  assert (T : traversed fl g2 gc)
    by (eapply traversed_trans; [exact Td|];
        eapply traversed_trans; [exact To|exact Tv]).
  split; [eapply traversed_trans; eassumption|].
  destruct T as [S _]. apply S, I2.
Qed.

Lemma PopulateNinjaNodes_traversed (fl : Flags)
  (nodes : list (text * DepNode)) (g : Generator) :
  traversed fl g (PopulateNinjaNodes fl nodes g).
Proof.
  unfold PopulateNinjaNodes. apply traversed_fold.
  apply Forall_forall. intros d _ g'. apply PopulateNinjaNode_traversed.
Qed.

(** X21. The traversal only adds to the set of visited outputs, and every root
    it was given is visited when it ends. *)
Theorem traversal_visits_roots (fl : Flags) (nodes : list (text * DepNode))
  (g : Generator) :
  done_ g ⊆ done_ (PopulateNinjaNodes fl nodes g)
  /\ Forall (fun d => output (snd d) ∈ done_ (PopulateNinjaNodes fl nodes g))
            nodes.
Proof.
  split; [apply PopulateNinjaNodes_traversed|].
  unfold PopulateNinjaNodes. revert g.
  induction nodes as [|d nodes IH]; intros g; [constructor|].
  cbn [fold_left]. constructor; [|apply IH].
  destruct (PopulateNinjaNode_traversed fl (snd d) g) as [_ I].
  destruct (PopulateNinjaNodes_traversed fl nodes
              (PopulateNinjaNode fl (snd d) g)) as [S _].
  unfold PopulateNinjaNodes in S. set_solver.
Qed.

(** X22. No output gets two build stanzas: when the outputs of the nodes made
    so far are different and visited, they still are after a traversal,
    however often a node is reached. *)
Theorem traversal_makes_each_output_once (fl : Flags)
  (nodes : list (text * DepNode)) (g : Generator) :
  NoDup (map nn_output (nodes_ g)) ->
  Forall (fun nn => nn_output nn ∈ done_ g) (nodes_ g) ->
  NoDup (map nn_output (nodes_ (PopulateNinjaNodes fl nodes g)))
  /\ Forall (fun nn => nn_output nn ∈ done_ (PopulateNinjaNodes fl nodes g))
            (nodes_ (PopulateNinjaNodes fl nodes g)).
Proof.
  intros Hn Hd.
  destruct (PopulateNinjaNodes_traversed fl nodes g)
    as (S & added & -> & F & D).
  split.
  - rewrite map_app. apply NoDup_app. repeat split; [assumption| |assumption].
    intros x Hx1 Hx2.
    apply list_elem_of_fmap in Hx1 as (n1 & -> & Hn1).
    apply list_elem_of_fmap in Hx2 as (n2 & E & Hn2).
    rewrite Forall_forall in F, Hd.
    destruct (F n2 Hn2) as (_ & _ & Out2). rewrite <- E in Out2.
    apply Out2, Hd, Hn1.
  - apply Forall_app. split.
    + eapply Forall_impl; [exact Hd|]. cbn. set_solver.
    + eapply Forall_impl; [exact F|]. cbn. tauto.
Qed.

Lemma traversal_makes_each_output_once_witness :
  NoDup (map nn_output
           (nodes_ (PopulateNinjaNodes plain_flags
                      [(str "top", top_node); (str "tool", tool_node);
                       (str "top", top_node)] fresh_generator))).
Proof.
  apply (traversal_makes_each_output_once plain_flags
           [(str "top", top_node); (str "tool", tool_node);
            (str "top", top_node)] fresh_generator);
    constructor.
Defined.

(** X23. Every node that the traversal makes has a recipe or is phony, carries
    the commands evaluated for its node, has the rule number -1 when these are
    none, and is not [out] under the Android flag. *)
Theorem traversal_makes_nodes_well (fl : Flags)
  (nodes : list (text * DepNode)) (g : Generator) :
  Forall (made_well fl) (nodes_ g) ->
  Forall (made_well fl) (nodes_ (PopulateNinjaNodes fl nodes g)).
Proof.
  intros H.
  destruct (PopulateNinjaNodes_traversed fl nodes g)
    as (_ & added & -> & F & _).
  apply Forall_app. split; [assumption|].
  eapply Forall_impl; [exact F|]. cbn. tauto.
Qed.

Lemma traversal_makes_nodes_well_witness :
  Forall (made_well plain_flags)
    (nodes_ (PopulateNinjaNodes plain_flags [(str "top", top_node)]
               fresh_generator)).
Proof.
  apply (traversal_makes_nodes_well plain_flags [(str "top", top_node)]
           fresh_generator).
  constructor.
Defined.

(** * The environment variables of the stamp *)

Lemma map_emplace_keeps (k v : text) (m : list (text * text))
  (p : text * text) :
  p ∈ m -> p ∈ map_emplace k v m.
Proof.
  induction m as [|[k' v'] m IH]; [intros H; inversion H|].
  cbn [map_emplace]. intros H. case_bool_decide as E; [assumption|].
  destruct (text_ltb k k'); [now right|].
  apply elem_of_cons in H as [->|H]; [left|right; now apply IH].
Qed.

Lemma map_emplace_has (k v : text) (m : list (text * text)) :
  exists v', (k, v') ∈ map_emplace k v m.
Proof.
  induction m as [|[k' v'] m IH]; [exists v; now left|].
  cbn [map_emplace]. case_bool_decide as E.
  - exists v'. subst. now left.
  - destruct (text_ltb k k'); [exists v; now left|].
    destruct IH as (w & Hw). exists w. now right.
Qed.

Lemma map_emplace_from (k v : text) (m : list (text * text))
  (p : text * text) :
  p ∈ map_emplace k v m -> p ∈ m \/ p = (k, v).
Proof.
  induction m as [|[k' v'] m IH]; cbn [map_emplace].
  - intros H. apply list_elem_of_singleton in H. now right.
  - case_bool_decide as E; [now left|].
    destruct (text_ltb k k').
    + intros H. apply elem_of_cons in H as [->|H]; [now right|now left].
    + intros H. apply elem_of_cons in H as [->|H]; [left; now left|].
      destruct (IH H) as [H'|H']; [left; now right|now right].
Qed.

Lemma record_fold (ext : Externals) (vars : list text)
  (m : list (text * text)) (P : text -> Prop) :
  Forall (fun p => snd p = env_value ext (fst p) /\ P (fst p)) m ->
  Forall P vars ->
  Forall (fun p => snd p = env_value ext (fst p) /\ P (fst p))
    (fold_left (fun m e => map_emplace e (env_value ext e) m) vars m).
Proof.
  revert m. induction vars as [|e vars IH]; intros m Hm Hv; [assumption|].
  inversion Hv as [|? ? He Hvars]; subst. cbn [fold_left]. apply IH;
    [|assumption].
  apply Forall_forall. intros p Hp.
  apply map_emplace_from in Hp as [Hp| ->].
  - rewrite Forall_forall in Hm. now apply Hm.
  - now split.
Qed.

(** X24. The environment recorded for the stamp, when none was recorded
    before: [PATH] is always in it, every name in it is [PATH] or a variable
    that the evaluation used, and each comes with the value that [getenv]
    gives for it, or with the empty text. *)
Theorem PATH_always_recorded (ext : Externals) (g : Generator) :
  used_envs_ g = [] ->
  (str "PATH", env_value ext (str "PATH"))
    ∈ used_envs_ (record_used_envs ext g)
  /\ Forall (fun p => snd p = env_value ext (fst p)
                      /\ (fst p = str "PATH" \/ fst p ∈ used_env_vars ext))
       (used_envs_ (record_used_envs ext g)).
Proof.
  intros Hg. unfold record_used_envs. cbn [used_envs_ set_used_envs].
  rewrite Hg.
  change (fun (m : list (text * text)) (e : text) =>
            map_emplace e
              match getenv ext (c_str e) with
              | Some v => v
              | None => []
              end m)
    with (fun (m : list (text * text)) (e : text) =>
            map_emplace e (env_value ext e) m).
  assert (F : Forall (fun p => snd p = env_value ext (fst p)
                               /\ (fst p = str "PATH"
                                   \/ fst p ∈ used_env_vars ext))
                (fold_left (fun m e => map_emplace e (env_value ext e) m)
                   (used_env_vars ext ++ [str "PATH"]) [])).
  { apply (record_fold ext _ []
             (fun k => k = str "PATH" \/ k ∈ used_env_vars ext));
      [constructor|]. apply Forall_app. split.
    - apply Forall_forall. intros x Hx. now right.
    - repeat constructor. }
  split; [|exact F].
  revert F. rewrite fold_left_app. cbn [fold_left]. intros F.
  destruct (map_emplace_has (str "PATH") (env_value ext (str "PATH"))
              (fold_left (fun m e => map_emplace e (env_value ext e) m)
                 (used_env_vars ext) [])) as (v & Hv).
  rewrite Forall_forall in F. destruct (F _ Hv) as [E _].
  cbn [fst snd] in E. rewrite E in Hv. exact Hv.
Qed.

Lemma PATH_always_recorded_witness :
  (str "PATH", env_value sample_externals (str "PATH"))
    ∈ used_envs_ (record_used_envs sample_externals fresh_generator).
Proof.
  apply (proj1 (PATH_always_recorded sample_externals fresh_generator
                  eq_refl)).
Defined.

Lemma nat_of_ascii_inj (a b : ascii) :
  nat_of_ascii a = nat_of_ascii b -> a = b.
Proof.
  intros H. rewrite <- (ascii_nat_embedding a), <- (ascii_nat_embedding b).
  now rewrite H.
Qed.

Lemma text_ltb_trans (a b c : text) :
  text_ltb a b = true -> text_ltb b c = true -> text_ltb a c = true.
Proof.
  revert b c. induction a as [|x a IH]; intros [|y b] [|z c];
    cbn [text_ltb]; try easy.
  intros H1 H2.
  apply orb_true_iff in H1 as [H1|H1]; apply orb_true_iff in H2 as [H2|H2];
    repeat match goal with
           | H : _ && _ = true |- _ => apply andb_true_iff in H as [? ?]
           | H : (_ <? _) = true |- _ => apply Nat.ltb_lt in H
           | H : (_ =? _) = true |- _ => apply Nat.eqb_eq in H
           end.
  - apply orb_true_iff. left. apply Nat.ltb_lt. lia.
  - apply orb_true_iff. left. apply Nat.ltb_lt. lia.
  - apply orb_true_iff. left. apply Nat.ltb_lt. lia.
  - apply orb_true_iff. right. apply andb_true_iff. split.
    + apply Nat.eqb_eq. lia.
    + eapply IH; eassumption.
Qed.

Lemma text_ltb_total (a b : text) :
  a <> b -> text_ltb a b = false -> text_ltb b a = true.
Proof.
  revert b. induction a as [|x a IH]; intros [|y b]; cbn [text_ltb];
    try easy.
  intros Hne H. apply orb_false_iff in H as [H1 H2].
  apply Nat.ltb_ge in H1.
  destruct (Nat.eq_dec (nat_of_ascii x) (nat_of_ascii y)) as [E|E].
  - apply orb_true_iff. right. rewrite E, Nat.eqb_refl in *.
    cbn [andb] in *.
    apply nat_of_ascii_inj in E. subst y.
    apply IH; [congruence|assumption].
  - apply orb_true_iff. left. apply Nat.ltb_lt. lia.
Qed.

Lemma text_ltb_irrefl (a : text) : text_ltb a a = false.
Proof.
  induction a as [|x a IH]; [reflexivity|]. cbn [text_ltb].
  now rewrite Nat.ltb_irrefl, Nat.eqb_refl, IH.
Qed.

Lemma map_emplace_sorted (k v : text) (m : list (text * text)) :
  keys_sorted m -> keys_sorted (map_emplace k v m).
Proof.
  induction m as [|[k' v'] m IH]; cbn [map_emplace];
    [intros _; repeat constructor|].
  intros [Hall Hs]. case_bool_decide as E; [now split|].
  destruct (text_ltb k k') eqn:L.
  - split; [|now split]. constructor; [exact L|].
    eapply Forall_impl; [exact Hall|]. cbn. intros p Hp.
    eapply text_ltb_trans; eassumption.
  - split; [|now apply IH]. apply Forall_forall. intros p Hp.
    apply map_emplace_from in Hp as [Hp| ->].
    + rewrite Forall_forall in Hall. now apply Hall.
    + cbn. apply text_ltb_total; [congruence|assumption].
Qed.

Lemma keys_sorted_NoDup (m : list (text * text)) :
  keys_sorted m -> NoDup (map fst m).
Proof.
  induction m as [|p m IH]; [constructor|]. intros [Hall Hs].
  cbn [map]. apply NoDup_cons. split; [|now apply IH].
  intros Hin. apply list_elem_of_fmap in Hin as (q & E & Hq).
  rewrite Forall_forall in Hall. specialize (Hall q Hq).
  rewrite E, text_ltb_irrefl in Hall. discriminate.
Qed.

(** X25. The recorded environment keeps the order of a [std::map]: when the
    keys grew strictly before, they still do after the recording, so no name
    is recorded twice. *)
Theorem recorded_environment_sorted (ext : Externals) (g : Generator) :
  keys_sorted (used_envs_ g) ->
  keys_sorted (used_envs_ (record_used_envs ext g))
  /\ NoDup (map fst (used_envs_ (record_used_envs ext g))).
Proof.
  intros H.
  assert (S : keys_sorted (used_envs_ (record_used_envs ext g))).
  { unfold record_used_envs. cbn [used_envs_ set_used_envs].
    revert H. generalize (used_envs_ g).
    induction (used_env_vars ext ++ [str "PATH"]) as [|e vars IH];
      intros m Hm; [assumption|].
    cbn [fold_left]. apply IH. now apply map_emplace_sorted. }
  split; [exact S|now apply keys_sorted_NoDup].
Qed.

Lemma recorded_environment_sorted_witness :
  NoDup (map fst (used_envs_ (record_used_envs sample_externals
                                fresh_generator))).
Proof.
  apply (proj2 (recorded_environment_sorted sample_externals
                  fresh_generator I)).
Defined.

(** * The ninja file *)

(** X26. With the flag for an empty ninja file no node is emitted and the file
    is the prelude alone; and since no node is emitted no default target is
    found: a run that names no targets fails, one that names targets and does
    not ask for all targets succeeds. *)
Theorem empty_ninja_file (ext : Externals) (fl : Flags) (g : Generator) :
  generate_empty_ninja fl = true -> default_target_ g = None ->
  fst (GenerateNinja ext fl g) = GenerateNinja_prelude ext fl g
  /\ (targets fl = [] -> snd (GenerateNinja ext fl g) = Abort CheckFailed)
  /\ (targets fl <> [] -> gen_all_targets fl = false ->
      snd (GenerateNinja ext fl g) = Ok (record_used_envs ext g)).
Proof.
  intros He Hd. unfold GenerateNinja, default_targets_of. rewrite He.
  cbn [negb]. rewrite record_used_envs_default, Hd.
  destruct (bool_decide (targets fl = [])) eqn:T.
  - apply bool_decide_eq_true in T. cbn [orb fst snd].
    split; [reflexivity|]. split; [reflexivity|]. intros H. contradiction.
  - apply bool_decide_eq_false in T. cbn [orb].
    destruct (gen_all_targets fl); cbn [fst snd].
    + split; [reflexivity|]. split; [intros H; contradiction|]. discriminate.
    + split; [reflexivity|]. split; [intros H; contradiction|]. reflexivity.
Qed.

Lemma empty_ninja_file_witness :
  snd (GenerateNinja sample_externals empty_file_flags
         (all_generator plain_flags))
  = Abort CheckFailed.
Proof.
  apply (proj1 (proj2 (empty_ninja_file sample_externals empty_file_flags
                         (all_generator plain_flags) eq_refl eq_refl))).
  reflexivity.
Defined.

Lemma set_default_target_same (g : Generator) :
  g = set_default_target (default_target_ g) g.
Proof. destruct g. reflexivity. Qed.

Lemma EmitBuild_frame (fl : Flags) (nn : NinjaNode) (rule_name : text)
  (flag : bool) (out : text) (g : Generator) :
  (exists added, fst (EmitBuild fl nn rule_name flag out g) = out ++ added)
  /\ snd (EmitBuild fl nn rule_name flag out g)
     = set_default_target
         (default_target_ (snd (EmitBuild fl nn rule_name flag out g))) g.
Proof.
  unfold EmitBuild. cbn [fst snd]. split; [eauto|].
  destruct (is_default_target (nn_node nn)); [reflexivity|].
  apply set_default_target_same.
Qed.

Lemma EmitNode_frame (ext : Externals) (fl : Flags) (nn : NinjaNode)
  (out : text) (g : Generator) :
  (exists added, fst (EmitNode ext fl nn out g) = out ++ added)
  /\ forall g', snd (EmitNode ext fl nn out g) = Ok g' ->
                g' = set_default_target (default_target_ g') g.
Proof.
  unfold EmitNode.
  destruct (IsSpecialTarget ext (output (nn_node nn))).
  { cbn [fst snd]. split; [exists []; now rewrite app_nil_r|].
    intros g' [= <-]. apply set_default_target_same. }
  set (out1 := if enable_debug fl then _ else out).
  assert (H1 : exists a, out1 = out ++ a).
  { subst out1. destruct (enable_debug fl); [eauto|].
    exists []. now rewrite app_nil_r. }
  destruct H1 as (a1 & H1).
  destruct (nn_commands nn) as [|c cs].
  - match goal with
    | |- context [EmitBuild ?a ?b ?c ?d ?e ?f] =>
        destruct (EmitBuild_frame a b c d e f) as [(x & Hx) Hg];
        destruct (EmitBuild a b c d e f) as [o g1]
    end.
    cbn [fst snd] in *. split.
    + exists (a1 ++ x). now rewrite Hx, H1, <- app_assoc.
    + now intros g' [= <-].
  - destruct (GenShellScript fl g _ (c :: cs) [] _) as [[[flag buf] d]|].
    2: { cbn [fst snd]. split; [|discriminate].
         eexists. rewrite H1, <- !app_assoc. reflexivity. }
    destruct (GetDepfile fl (nn_node nn) buf []) as [[[has buf'] dep]|].
    2: { cbn [fst snd]. split; [|discriminate].
         eexists. rewrite H1, <- !app_assoc. reflexivity. }
    match goal with
    | |- context [EmitBuild ?a ?b ?c ?d ?e ?f] =>
        destruct (EmitBuild_frame a b c d e f) as [(x & Hx) Hg];
        destruct (EmitBuild a b c d e f) as [o g1]
    end.
    cbn [fst snd] in *. split; [|now intros g' [= <-]].
    rewrite Hx, H1.
    destruct has, (is_restat (nn_node nn)); eexists;
      rewrite <- !app_assoc; reflexivity.
Qed.

(** X27. The emission of the nodes only adds to the text it was given, and the
    only member of the generator that it changes is the default target. *)
Theorem EmitNodes_frame (ext : Externals) (fl : Flags)
  (nodes : list NinjaNode) (out : text) (g : Generator) :
  (exists added, fst (EmitNodes ext fl nodes out g) = out ++ added)
  /\ forall g', snd (EmitNodes ext fl nodes out g) = Ok g' ->
                g' = set_default_target (default_target_ g') g.
Proof.
  revert out g. induction nodes as [|nn nodes IH]; intros out g.
  - cbn. split; [exists []; now rewrite app_nil_r|].
    intros g' [= <-]. apply set_default_target_same.
  - cbn [EmitNodes].
    destruct (EmitNode_frame ext fl nn out g) as [(a & Ha) Hg].
    destruct (EmitNode ext fl nn out g) as [o [g1|f]]; cbn [fst snd] in *.
    + destruct (IH o g1) as [(b & Hb) Hg'].
      split; [exists (a ++ b); now rewrite Hb, Ha, <- app_assoc|].
      intros g' E. rewrite (Hg' g' E). rewrite (Hg g1 eq_refl).
      reflexivity.
    + split; [eauto|discriminate].
Qed.

Lemma EmitNodes_frame_witness :
  exists g',
    snd (EmitNodes sample_externals plain_flags
           (nodes_ (all_generator plain_flags)) [] (all_generator plain_flags))
    = Ok g'
    /\ g' = set_default_target (default_target_ g')
              (all_generator plain_flags).
Proof.
  eexists. split; [vm_compute; reflexivity|].
  apply (proj2 (EmitNodes_frame sample_externals plain_flags
                  (nodes_ (all_generator plain_flags)) []
                  (all_generator plain_flags))).
  vm_compute. reflexivity.
Defined.

(** * Variables *)

(** X28. The flavour tells the four kinds of variables apart, and the only
    kind that is not defined is the one whose flavour is [undefined]. *)
Theorem Flavor_tells_kinds (k k' : VarKind) :
  (Flavor k = Flavor k' -> k = k')
  /\ IsDefined k = negb (String.eqb (Flavor k) "undefined").
Proof.
  split; [|destruct k; reflexivity].
  destruct k, k'; cbn; intros H; try reflexivity; discriminate H.
Qed.

Lemma Flavor_tells_kinds_witness : RecursiveVar = RecursiveVar.
Proof.
  apply (proj1 (Flavor_tells_kinds RecursiveVar RecursiveVar)). reflexivity.
Defined.
